(** * Eaton UPS scraper: a shallow embedding of [ups_scraper_server.py]

    The model, in the order of the source file and of what it calls:

    - [PyStr]: the Python [str] methods the server calls ([strip], [lower],
      [in], [replace]) on strings of code points 0..255;
    - [Re]: a backtracking matcher for the fragment of Python's [re] syntax the
      four patterns of the server are written in, with [search] and [findall];
    - [Py]: Python values, insertion-ordered dictionaries, exceptions, [int]
      and [float] applied to a string;
    - [Soup]: the BeautifulSoup tree and the queries [find], [find_all],
      [get_text]; [HtmlParser]: a tree builder for the examples;
    - [Server]: [clean_value], [require_api_key] and [get_ups_data];
    - [Spec]: the notions the properties are stated with; [Examples]:
      concrete requests and payloads.

    Then the facts about each module, and the properties of the
    specification, C1 to C10, each with the example it is applied to and,
    where the code does otherwise, the input that shows it.

    The last part goes on with the code the specification leaves aside:
    [Main] models [main()] and its argument parser, [Notions] and [Language]
    hold what the further properties, X1 to X16, are stated with.

    Strings are [string], one [ascii] per code point: the model covers payloads
    whose code points are below 256.  [jsonify] and the HTTP layer of Flask
    are outside the model: a view ends in the Python value it hands over, and
    what is said of a response is said of the keys and values of that value,
    not of the order [jsonify] writes them in. *)

From Stdlib Require Import String Ascii List ZArith Bool Arith Lia.
From Stdlib Require Import DecimalString DecimalNat.
Import ListNotations.

Open Scope string_scope.

Set Warnings "-register-all".

(* ------------------------------------------------------------------ *)
(** ** Python [str] methods *)

Module PyStr.

Definition code (c : ascii) : nat := nat_of_ascii c.

Definition between (lo hi : nat) (c : ascii) : bool :=
  (lo <=? code c)%nat && (code c <=? hi)%nat.

(** [str.isspace] on one code point below 256: TAB..CR, FS..US, SPACE,
    NEL (0x85) and NBSP (0xA0).  [str.strip()] and the class [\s] of [re]
    both use this test. *)
Definition isspace (c : ascii) : bool :=
  between 9 13 c || between 28 32 c || (code c =? 133)%nat || (code c =? 160)%nat.

(** The decimal digits below 256: [\d] and [[0-9]] agree there. *)
Definition isdigit (c : ascii) : bool := between 48 57 c.

(** [str.lower] on one code point below 256: A..Z and the Latin-1 capitals
    0xC0..0xDE, the multiplication sign 0xD7 apart. *)
Definition lower_char (c : ascii) : ascii :=
  if between 65 90 c || (between 192 222 c && negb (code c =? 215)%nat)
  then ascii_of_nat (code c + 32)
  else c.

Fixpoint lower (s : string) : string :=
  match s with
  | EmptyString => EmptyString
  | String c s' => String (lower_char c) (lower s')
  end.

(** Dropping the leading, then the trailing, characters of a class. *)
Fixpoint lstrip_by (p : ascii -> bool) (s : string) : string :=
  match s with
  | EmptyString => EmptyString
  | String c s' => if p c then lstrip_by p s' else s
  end.

Fixpoint rstrip_by (p : ascii -> bool) (s : string) : string :=
  match s with
  | EmptyString => EmptyString
  | String c s' =>
      match rstrip_by p s' with
      | EmptyString => if p c then EmptyString else String c EmptyString
      | r => String c r
      end
  end.

Definition strip_by (p : ascii -> bool) (s : string) : string :=
  rstrip_by p (lstrip_by p s).

(** [s.strip()] *)
Definition strip (s : string) : string := strip_by isspace s.

(** [s.startswith(p)] *)
Fixpoint startswith (p s : string) : bool :=
  match p with
  | EmptyString => true
  | String a p' =>
      match s with
      | EmptyString => false
      | String b s' => Ascii.eqb a b && startswith p' s'
      end
  end.

(** [p in s] *)
Fixpoint contains (p s : string) : bool :=
  startswith p s ||
  match s with
  | EmptyString => false
  | String _ s' => contains p s'
  end.

(** [s[n:]] *)
Fixpoint drop (n : nat) (s : string) : string :=
  match n with
  | O => s
  | S n' => match s with
            | EmptyString => EmptyString
            | String _ s' => drop n' s'
            end
  end.

(** [s[:n]] *)
Fixpoint take (n : nat) (s : string) : string :=
  match n with
  | O => EmptyString
  | S n' => match s with
            | EmptyString => EmptyString
            | String c s' => String c (take n' s')
            end
  end.

(** The scan of [s.replace(old, new)] for a non-empty [old]: left to right,
    an occurrence is replaced and the scan resumes after it; [skip] counts
    the characters of a replaced occurrence still to pass over. *)
Fixpoint replace_scan (old new s : string) (skip : nat) : string :=
  match s with
  | EmptyString => EmptyString
  | String c s' =>
      match skip with
      | S k => replace_scan old new s' k
      | O =>
          if startswith old s
          then new ++ replace_scan old new s' (String.length old - 1)
          else String c (replace_scan old new s' 0)
      end
  end.

(** With an empty [old], Python puts [new] before every character and at
    the end. *)
Fixpoint intersperse (new s : string) : string :=
  match s with
  | EmptyString => new
  | String c s' => new ++ String c (intersperse new s')
  end.

(** [s.replace(old, new)] *)
Definition replace (old new s : string) : string :=
  match old with
  | EmptyString => intersperse new s
  | _ => replace_scan old new s 0
  end.

(** The text before and the text after the first occurrence of [sep] in [s],
    as [s.partition(sep)] splits it; [None] when [sep] does not occur. *)
Fixpoint partition (sep s : string) : option (string * string) :=
  if startswith sep s then Some (EmptyString, drop (String.length sep) s)
  else match s with
       | EmptyString => None
       | String c s' =>
           match partition sep s' with
           | Some (a, b) => Some (String c a, b)
           | None => None
           end
       end.

(** [all(p(c) for c in s)] *)
Fixpoint all (p : ascii -> bool) (s : string) : bool :=
  match s with
  | EmptyString => true
  | String c s' => p c && all p s'
  end.

(** [any(p(c) for c in s)] *)
Fixpoint any (p : ascii -> bool) (s : string) : bool :=
  match s with
  | EmptyString => false
  | String c s' => p c || any p s'
  end.

(** [x in (a, b, ...)] on strings *)
Fixpoint mem (x : string) (l : list string) : bool :=
  match l with
  | [] => false
  | y :: l' => String.eqb x y || mem x l'
  end.

End PyStr.

(* ------------------------------------------------------------------ *)
(** ** The fragment of [re] the server uses *)

Module Re.
Import PyStr.

(** Patterns: literal text, a character class under [*], [*?], [+] or [?],
    concatenation, and the capturing group.  The four patterns of the server
    quantify character classes only and have at most one group. *)
Inductive regex : Type :=
| Lit (l : string)
| Star (p : ascii -> bool)
| StarLazy (p : ascii -> bool)
| Plus (p : ascii -> bool)
| Opt (p : ascii -> bool)
| Seq (r1 r2 : regex)
| Group (r : regex).

(** A match object: [m.group()], [m.group(1)] and the text after the match. *)
Record match_object : Type := MatchObject {
  group0 : string;
  group1 : option string;
  after : string
}.

(** The text the matcher passed over between the position [s] and the later
    position [s']. *)
Definition consumed (s s' : string) : string :=
  take (String.length s - String.length s') s.

Section Backtracking.
Context {R : Type}.

(** [x*]: as many characters as possible, giving them back one at a time
    while the continuation fails. *)
Fixpoint star (p : ascii -> bool) (k : string -> option R) (s : string)
  : option R :=
  match s with
  | EmptyString => k s
  | String c s' =>
      if p c
      then match star p k s' with
           | Some x => Some x
           | None => k s
           end
      else k s
  end.

(** [x*?]: as few characters as possible. *)
Fixpoint star_lazy (p : ascii -> bool) (k : string -> option R) (s : string)
  : option R :=
  match k s with
  | Some x => Some x
  | None =>
      match s with
      | EmptyString => None
      | String c s' => if p c then star_lazy p k s' else None
      end
  end.

(** [run r s g k]: match [r] at the head of [s], then continue with [k] on
    the remaining text and the capture; [None] is a failed attempt, and the
    alternatives are tried in the order of the backtracking engine. *)
Fixpoint run (r : regex) (s : string) (g : option string)
  (k : string -> option string -> option R) : option R :=
  match r with
  | Lit l =>
      if startswith l s then k (drop (String.length l) s) g else None
  | Star p => star p (fun s' => k s' g) s
  | StarLazy p => star_lazy p (fun s' => k s' g) s
  | Plus p =>
      match s with
      | EmptyString => None
      | String c s' => if p c then star p (fun s'' => k s'' g) s' else None
      end
  | Opt p =>
      match s with
      | EmptyString => k s g
      | String c s' =>
          if p c
          then match k s' g with
               | Some x => Some x
               | None => k s g
               end
          else k s g
      end
  | Seq r1 r2 => run r1 s g (fun s' g' => run r2 s' g' k)
  | Group r1 => run r1 s g (fun s' _ => k s' (Some (consumed s s')))
  end.

End Backtracking.

(** A match that starts exactly at the head of [s]. *)
Definition match_here (r : regex) (s : string) : option match_object :=
  run r s None (fun s' g => Some (MatchObject (consumed s s') g s')).

(** [re.search(r, s)]: the match at the leftmost position that has one. *)
Fixpoint search (r : regex) (s : string) : option match_object :=
  match match_here r s with
  | Some m => Some m
  | None =>
      match s with
      | EmptyString => None
      | String _ s' => search r s'
      end
  end.

(** The scan of [re.findall]: successive searches, each from the end of the
    match before; [skip] counts the characters of that match still to pass
    over (after an empty match the scan moves one character on). *)
Fixpoint finditer (r : regex) (s : string) (skip : nat)
  : list match_object :=
  match skip with
  | S n =>
      match s with
      | EmptyString => []
      | String _ s' => finditer r s' n
      end
  | O =>
      match match_here r s with
      | Some m =>
          m :: match s with
               | EmptyString => []
               | String _ s' =>
                   finditer r s' (String.length (group0 m) - 1)
               end
      | None =>
          match s with
          | EmptyString => []
          | String _ s' => finditer r s' 0
          end
      end
  end.

(** [re.findall(r, s)] for a pattern with one group: the texts of group 1
    (the empty string for a group that took no part in the match). *)
Definition findall (r : regex) (s : string) : list string :=
  map (fun m => match group1 m with Some g => g | None => "" end)
      (finditer r s 0).

End Re.

(* ------------------------------------------------------------------ *)
(** ** Python values, dictionaries and exceptions *)

Module Py.
Import PyStr.

Inductive exn : Type :=
| AttributeError
| TypeError
| ValueError.

(** A computation that returns or raises. *)
Inductive exc (A : Type) : Type :=
| Ok (a : A)
| Raise (e : exn).
Arguments Ok {A} a.
Arguments Raise {A} e.

Definition bind {A B : Type} (c : exc A) (k : A -> exc B) : exc B :=
  match c with
  | Ok a => k a
  | Raise e => Raise e
  end.

Notation "x <- c ;; k" := (bind c (fun x => k))
  (at level 61, c at next level, right associativity).

(** [o.attr] where [o] may be [None]. *)
Definition attribute_of {A : Type} (o : option A) : exc A :=
  match o with
  | Some a => Ok a
  | None => Raise AttributeError
  end.

(** The values the server builds.  A float is kept as the text handed to
    [float()]: its rounding to a double is not modelled. *)
Inductive pyval : Type :=
| PNone
| PInt (z : Z)
| PFloat (literal : string)
| PStr (s : string)
| PDict (items : list (string * pyval)).

(** A [dict] with [str] keys: the items in insertion order, keys unique. *)
Definition dict (V : Type) : Type := list (string * V).

(** [d[k] = v]: a key already present keeps its place and takes the new
    value, a new key goes to the end. *)
Fixpoint dict_set {V : Type} (k : string) (v : V) (d : dict V) : dict V :=
  match d with
  | [] => [(k, v)]
  | (k', v') :: d' =>
      if String.eqb k' k then (k, v) :: d' else (k', v') :: dict_set k v d'
  end.

(** [{**d, **e}]: the items of [e] set one after the other. *)
Definition dict_update {V : Type} (d e : dict V) : dict V :=
  fold_left (fun acc kv => dict_set (fst kv) (snd kv) acc) e d.

Definition keys {V : Type} (d : dict V) : list string := map fst d.

Fixpoint dict_get {V : Type} (k : string) (d : dict V) : option V :=
  match d with
  | [] => None
  | (k', v) :: d' => if String.eqb k' k then Some v else dict_get k d'
  end.

(** Truth value of an optional string: [None] and the empty string are
    false. *)
Definition truthy (o : option string) : bool :=
  match o with
  | Some s => negb (String.eqb s "")
  | None => false
  end.

Definition digit_value (c : ascii) : Z := Z.of_nat (code c) - 48.

Fixpoint int_digits (acc : Z) (s : string) : Z :=
  match s with
  | EmptyString => acc
  | String c s' => int_digits (10 * acc + digit_value c) s'
  end.

(** [sys.get_int_max_str_digits()]: the longest decimal text [int] converts.
    The server never changes the interpreter's default. *)
Definition int_max_str_digits : nat := 4300.

(** [int(s)] for [s] a run of decimal digits, which is what a [(\d+)] group
    holds; other texts are reported as [ValueError].  Python integers are
    unbounded, but CPython refuses a text of more than
    [int_max_str_digits] digits, leading zeros counted, with a
    [ValueError]. *)
Definition py_int (s : string) : exc Z :=
  if negb (String.eqb s "") && all isdigit s
  then if (String.length s <=? int_max_str_digits)%nat
       then Ok (int_digits 0 s)
       else Raise ValueError
  else Raise ValueError.

(** *** [float(s)]

    CPython turns the space characters above 0x7F into blanks, drops the
    blanks at both ends, checks that every underscore stands between two
    digits and removes them, then requires the whole rest to be a decimal
    number (digits with an optional point and exponent) or one of the words
    [inf], [infinity], [nan] in any case, each after an optional sign. *)

Definition float_blank (c : ascii) : bool :=
  between 9 13 c || (code c =? 32)%nat || (code c =? 133)%nat
  || (code c =? 160)%nat.

Definition is_underscore (c : ascii) : bool := Ascii.eqb c "_".

Fixpoint underscores_ok (prev : ascii) (s : string) : bool :=
  match s with
  | EmptyString => negb (is_underscore prev)
  | String c s' =>
      (if is_underscore c then isdigit prev
       else if is_underscore prev then isdigit c else true)
      && underscores_ok c s'
  end.

Fixpoint remove_underscores (s : string) : string :=
  match s with
  | EmptyString => EmptyString
  | String c s' =>
      if is_underscore c then remove_underscores s'
      else String c (remove_underscores s')
  end.

Definition skip_sign (s : string) : string :=
  match s with
  | String c s' => if Ascii.eqb c "+" || Ascii.eqb c "-" then s' else s
  | EmptyString => s
  end.

(** The leading digits of [s] and what follows them. *)
Fixpoint span_digits (s : string) : nat * string :=
  match s with
  | EmptyString => (O, s)
  | String c s' =>
      if isdigit c
      then let (n, r) := span_digits s' in (S n, r)
      else (O, s)
  end.

Definition exponent_ok (s : string) : bool :=
  match s with
  | EmptyString => true
  | String c s' =>
      if Ascii.eqb c "e" || Ascii.eqb c "E"
      then let (n, r) := span_digits (skip_sign s') in
           (0 <? n)%nat && String.eqb r ""
      else false
  end.

Definition float_number (s : string) : bool :=
  let (n1, s1) := span_digits (skip_sign s) in
  let (n2, s2) :=
    match s1 with
    | String c s1' => if Ascii.eqb c "." then span_digits s1' else (O, s1)
    | EmptyString => (O, s1)
    end in
  (0 <? n1 + n2)%nat && exponent_ok s2.

Definition float_word (s : string) : bool :=
  mem (lower (skip_sign s)) ["inf"; "infinity"; "nan"].

Definition float_accepts (s : string) : bool :=
  let t := strip_by float_blank s in
  underscores_ok "000" t
  && (float_word (remove_underscores t) || float_number (remove_underscores t)).

Definition py_float (s : string) : exc pyval :=
  if float_accepts s then Ok (PFloat s) else Raise ValueError.

End Py.

(* ------------------------------------------------------------------ *)
(** ** The BeautifulSoup tree *)

Module Soup.
Import PyStr.

(** A parsed fragment: text, a string [get_text] leaves out (a comment, a
    declaration), or a tag with its attributes and children.  The root that
    [BeautifulSoup(...)] returns is a tag as well. *)
Inductive node : Type :=
| Text (s : string)
| Comment (s : string)
| Tag (name : string) (attrs : list (string * string)) (children : list node).

(** Everything below a node, in document order. *)
Fixpoint descendants (n : node) : list node :=
  match n with
  | Tag _ _ cs => flat_map (fun c => c :: descendants c) cs
  | _ => []
  end.

Fixpoint attr_get (k : string) (attrs : list (string * string))
  : option string :=
  match attrs with
  | [] => None
  | (k', v) :: attrs' => if String.eqb k' k then Some v else attr_get k attrs'
  end.

(** The maximal runs of non-space characters of [s]: the values of a [class]
    attribute.  [words] returns the run that starts at the head of [s] (empty
    if there is none) and the runs after it. *)
Definition cons_word (w : string) (ws : list string) : list string :=
  match w with
  | EmptyString => ws
  | _ => w :: ws
  end.

Fixpoint words (s : string) : string * list string :=
  match s with
  | EmptyString => (EmptyString, [])
  | String c s' =>
      let (w, ws) := words s' in
      if isspace c then (EmptyString, cons_word w ws) else (String c w, ws)
  end.

Definition split_whitespace (s : string) : list string :=
  let (w, ws) := words s in cons_word w ws.

Definition has_class (c : string) (attrs : list (string * string)) : bool :=
  match attr_get "class" attrs with
  | Some v => mem c (split_whitespace v)
  | None => false
  end.

(** The test of [find(name)] and [find_all(name, class_=c)] on one node. *)
Definition is_tag (name : string) (class_ : option string) (n : node) : bool :=
  match n with
  | Tag nm attrs _ =>
      String.eqb nm name
      && match class_ with
         | Some c => has_class c attrs
         | None => true
         end
  | _ => false
  end.

(** [n.find_all(name)] and [n.find_all(name, class_=c)] *)
Definition find_all (name : string) (class_ : option string) (n : node)
  : list node :=
  filter (is_tag name class_) (descendants n).

(** [n.find(name)]: the first one, or [None]. *)
Definition find (name : string) (n : node) : option node :=
  List.find (is_tag name None) (descendants n).

(** The strings [get_text] joins: with [strip=True] each one is stripped and
    the empty ones are left out. *)
Definition text_of (strip_ : bool) (n : node) : string :=
  match n with
  | Text s => if strip_ then strip s else s
  | _ => EmptyString
  end.

(** [n.get_text(strip=...)]; [n.text] is [get_text false n]. *)
Definition get_text (strip_ : bool) (n : node) : string :=
  String.concat "" (map (text_of strip_) (descendants n)).

End Soup.

(* ------------------------------------------------------------------ *)
(** ** A reference tree builder *)

Module HtmlParser.
Import PyStr Soup.

(** The general results below hold for every function from a fragment to a
    tree.  The examples on concrete payloads need one: this builder reads
    start tags with attributes, end tags and text the way [html.parser] does
    (names and attribute names in lower case, an end tag closing the nearest
    open tag of its name, a stray end tag ignored).  Character references,
    comments, declarations, void and raw-text elements, white space around
    the [=] of an attribute and a [<] inside a text do not occur in the
    examples and are not covered. *)

Inductive token : Type :=
| TStart (name : string) (attrs : list (string * string))
| TEnd (name : string)
| TText (s : string).

Fixpoint rev_append (s acc : string) : string :=
  match s with
  | EmptyString => acc
  | String c s' => rev_append s' (String c acc)
  end.

Definition rev (s : string) : string := rev_append s EmptyString.

(** Lexer states; the strings under construction are kept reversed. *)
Inductive lex_state : Type :=
| InText (acc : string)
| InName (closing : bool) (acc : string)
| InTag (name : string) (attrs : list (string * string))
| InAttrName (name : string) (attrs : list (string * string)) (acc : string)
| InAttrEq (name : string) (attrs : list (string * string)) (key : string)
| InAttrValue (name : string) (attrs : list (string * string)) (key : string)
    (quote : option ascii) (acc : string).

Definition emit_text (acc : string) (out : list token) : list token :=
  match acc with
  | EmptyString => out
  | _ => TText (rev acc) :: out
  end.

Definition close_tag (closing : bool) (name : string)
  (attrs : list (string * string)) : token :=
  if closing then TEnd name else TStart name (List.rev attrs).

Definition is_gt (c : ascii) : bool := Ascii.eqb c ">".

(** One character of input: the new state and the tokens completed. *)
Definition lex_step (st : lex_state) (c : ascii) : lex_state * list token :=
  match st with
  | InText acc =>
      if Ascii.eqb c "<" then (InName false EmptyString, emit_text acc [])
      else (InText (String c acc), [])
  | InName closing acc =>
      if Ascii.eqb c "/" then
        match acc with
        | EmptyString => (InName true EmptyString, [])
        | _ => (InTag (lower (rev acc)) [], [])
        end
      else if is_gt c then
        (InText EmptyString, [close_tag closing (lower (rev acc)) []])
      else if isspace c then
        if closing then (InName closing acc, [])
        else (InTag (lower (rev acc)) [], [])
      else (InName closing (String c acc), [])
  | InTag name attrs =>
      if is_gt c then (InText EmptyString, [TStart name (List.rev attrs)])
      else if isspace c || Ascii.eqb c "/" then (InTag name attrs, [])
      else (InAttrName name attrs (String c EmptyString), [])
  | InAttrName name attrs acc =>
      if Ascii.eqb c "=" then (InAttrEq name attrs (lower (rev acc)), [])
      else if is_gt c then
        (InText EmptyString,
         [TStart name (List.rev ((lower (rev acc), EmptyString) :: attrs))])
      else if isspace c then
        (InTag name ((lower (rev acc), EmptyString) :: attrs), [])
      else (InAttrName name attrs (String c acc), [])
  | InAttrEq name attrs key =>
      if Ascii.eqb c "'" then (InAttrValue name attrs key (Some c) EmptyString, [])
      else if Ascii.eqb c (ascii_of_nat 34) then
        (InAttrValue name attrs key (Some c) EmptyString, [])
      else if is_gt c then
        (InText EmptyString,
         [TStart name (List.rev ((key, EmptyString) :: attrs))])
      else (InAttrValue name attrs key None (String c EmptyString), [])
  | InAttrValue name attrs key (Some q) acc =>
      if Ascii.eqb c q then (InTag name ((key, rev acc) :: attrs), [])
      else (InAttrValue name attrs key (Some q) (String c acc), [])
  | InAttrValue name attrs key None acc =>
      if is_gt c then
        (InText EmptyString,
         [TStart name (List.rev ((key, rev acc) :: attrs))])
      else if isspace c then (InTag name ((key, rev acc) :: attrs), [])
      else (InAttrValue name attrs key None (String c acc), [])
  end.

Fixpoint lex (st : lex_state) (s : string) : list token :=
  match s with
  | EmptyString =>
      match st with
      | InText acc => emit_text acc []
      | _ => []
      end
  | String c s' =>
      let (st', out) := lex_step st c in out ++ lex st' s'
  end.

(** The open elements, innermost first, each with its children so far in
    reverse order. *)
Definition frame : Type := (string * list (string * string) * list node)%type.

Definition frame_name (f : frame) : string := fst (fst f).

Definition add_child (n : option node) (f : frame) : frame :=
  match n, f with
  | Some c, (nm, at_, cs) => (nm, at_, c :: cs)
  | None, _ => f
  end.

Definition add_to_top (n : node) (stack : list frame) : list frame :=
  match stack with
  | f :: rest => add_child (Some n) f :: rest
  | [] => []
  end.

Definition close_frame (f : frame) : node :=
  match f with
  | (nm, at_, cs) => Tag nm at_ (List.rev cs)
  end.

(** Close the open elements down to and including the nearest [name];
    [child] is the element just closed, still to be attached to its parent.
    The root is never closed. *)
Fixpoint pop_to (name : string) (child : option node) (stack : list frame)
  : list frame :=
  match stack with
  | [] => []
  | f :: rest =>
      match rest with
      | [] => [add_child child f]
      | _ :: _ =>
          if String.eqb (frame_name f) name
          then add_to_top (close_frame (add_child child f)) rest
          else pop_to name (Some (close_frame (add_child child f))) rest
      end
  end.

Definition is_open (name : string) (stack : list frame) : bool :=
  existsb (fun f => String.eqb (frame_name f) name) (removelast stack).

Definition build_step (stack : list frame) (t : token) : list frame :=
  match t with
  | TText s => add_to_top (Text s) stack
  | TStart nm at_ => (nm, at_, []) :: stack
  | TEnd nm => if is_open nm stack then pop_to nm None stack else stack
  end.

(** At the end of the input every open element is closed. *)
Fixpoint close_all (child : option node) (stack : list frame) : node :=
  match stack with
  | [] =>
      match child with
      | Some n => n
      | None => Tag "[document]" [] []
      end
  | f :: rest => close_all (Some (close_frame (add_child child f))) rest
  end.

(** [BeautifulSoup(html, "html.parser")] on the fragments of the examples. *)
Definition html_parser (html : string) : node :=
  close_all None (fold_left build_step (lex (InText EmptyString) html)
                            [("[document]", [], [])]).

End HtmlParser.

(* ------------------------------------------------------------------ *)
(** ** The server *)

Module Server.
Import PyStr Re Py Soup.

(** The module-level configuration, each entry as [os.getenv] gives it. *)
Record config : Type := Config {
  UPS_IP : option string;
  USERNAME : option string;
  PASSWORD : option string;
  SERVER_API_KEY : option string
}.

(** The part of [flask.request] the server reads: the header lines of the
    request, names and values as the WSGI server hands them over, and the
    parameters of its query string, both in the order sent. *)
Record request : Type := Request {
  headers : list (string * string);
  args : list (string * string)
}.

(** The values of the header lines named [name], in the order sent; header
    names compare without regard to case. *)
Fixpoint header_values (name : string) (hs : list (string * string))
  : list string :=
  match hs with
  | [] => []
  | (k, v) :: hs' =>
      if String.eqb (lower k) (lower name) then v :: header_values name hs'
      else header_values name hs'
  end.

(** [request.headers.get(name, default)].  Flask reads the headers from the
    WSGI environment, which holds one value for each name: a header sent more
    than once has reached the program as a single value, the values of its
    lines joined by a comma and a blank. *)
Definition headers_get (name default : string) (hs : list (string * string))
  : string :=
  match header_values name hs with
  | [] => default
  | values => String.concat ", " values
  end.

(** [request.args.get(name)]: the first value of the parameter, or [None]. *)
Fixpoint args_get (name : string) (qs : list (string * string))
  : option string :=
  match qs with
  | [] => None
  | (k, v) :: qs' => if String.eqb k name then Some v else args_get name qs'
  end.

Definition opt_eqb (a b : option string) : bool :=
  match a, b with
  | Some x, Some y => String.eqb x y
  | None, None => true
  | _, _ => false
  end.

(** *** The patterns *)

Definition any_char (c : ascii) : bool := true.
Definition is_sign (c : ascii) : bool := Ascii.eqb c "-" || Ascii.eqb c "+".
Definition is_point (c : ascii) : bool := Ascii.eqb c ".".

(** [(\d+)\s*mn] *)
Definition re_mins : regex :=
  Seq (Group (Plus isdigit)) (Seq (Star isspace) (Lit "mn")).

(** [(\d+)\s*s] *)
Definition re_secs : regex :=
  Seq (Group (Plus isdigit)) (Seq (Star isspace) (Lit "s")).

(** [[-+]?[0-9]*\.?[0-9]+] *)
Definition re_number : regex :=
  Seq (Opt is_sign) (Seq (Star isdigit) (Seq (Opt is_point) (Plus isdigit))).

(** [label=(<TABLE.*?</TABLE>)] under [re.DOTALL] *)
Definition re_table : regex :=
  Seq (Lit "label=")
      (Group (Seq (Lit "<TABLE") (Seq (StarLazy any_char) (Lit "</TABLE>")))).

(** *** [clean_value] *)

(** [int(m.group(1))] *)
Definition int_group1 (m : match_object) : exc Z :=
  match group1 m with
  | Some g => py_int g
  | None => Raise TypeError
  end.

(** The body of the [try]. *)
Definition clean_value_try (val : string) : exc pyval :=
  if contains "mn" val && contains "s" val then
    m1 <- attribute_of (search re_mins val) ;;
    mins <- int_group1 m1 ;;
    m2 <- attribute_of (search re_secs val) ;;
    secs <- int_group1 m2 ;;
    Ok (PInt (mins * 60 + secs))
  else if contains "%" val then
    py_float (strip (replace "%" "" val))
  else
    m <- attribute_of (search re_number val) ;;
    py_float (group0 m).

Definition clean_value (val : string) : pyval :=
  let val := lower (strip val) in
  if mem val ["unknown"; "-"; ""] then PNone
  else match clean_value_try val with
       | Ok v => v
       | Raise _ => PStr val
       end.

(** *** The outside world *)

(** What the [try] around [requests.get(...)] and [response.text] ends in:
    the text of the payload, or an exception [e], kept as [str(e)]. *)
Inductive fetched : Type :=
| Fetched (text : string)
| FetchRaised (message : string).

(** One outbound call: the URL and the keyword arguments. *)
Record call : Type := Call {
  url : string;
  auth : option (string * string);
  verify : bool;
  timeout : Z
}.

(** The device answers the [n]-th outbound call of the process as [device n]
    says; [calls] logs the calls made so far; [utcnow] is the clock reading
    [datetime.now(timezone.utc).isoformat()]. *)
Record world : Type := World {
  device : nat -> call -> fetched;
  calls : list call;
  utcnow : string
}.

Definition requests_get (c : call) (w : world) : fetched * world :=
  (device w (List.length (calls w)) c,
   World (device w) (calls w ++ [c]) (utcnow w)).

(** How a view ends: a response (body handed to [jsonify], status), an
    [abort(code, description=...)], or an exception that leaves the view.
    [body] is the Python value as the view has built it; [jsonify] writes the
    keys of a dictionary in sorted order, so the order of the keys of [body]
    is that of the dictionary and not that of the text sent. *)
Inductive outcome : Type :=
| Returned (body : pyval) (status : Z)
| Aborted (code : Z) (description : string)
| Raised (e : exn).

Definition view : Type := request -> world -> outcome * world.

(** *** [require_api_key] *)

Definition require_api_key (cfg : config) (f : view) : view :=
  fun req w =>
    let key_from_header :=
      replace "Bearer " "" (headers_get "Authorization" "" (headers req)) in
    let key_from_query := args_get "api_key" (args req) in
    if truthy (SERVER_API_KEY cfg)
       && (negb (opt_eqb (Some key_from_header) (SERVER_API_KEY cfg))
           && negb (opt_eqb key_from_query (SERVER_API_KEY cfg)))
    then (Aborted 401 "Invalid or missing API key", w)
    else f req w.

(** *** [get_ups_data] *)

(** [f"{x}"] for an optional string. *)
Definition format_opt (o : option string) : string :=
  match o with
  | Some s => s
  | None => "None"
  end.

(** The single outbound call: the URL built from [UPS_IP], [verify=False],
    [timeout=5], and [auth] when [USERNAME and PASSWORD] holds. *)
Definition outbound_call (cfg : config) : call :=
  let ups_url :=
    "https://" ++ format_opt (UPS_IP cfg)
    ++ "/html/synoptic/ups_measure_11_simple.js" in
  let request_auth :=
    match USERNAME cfg, PASSWORD cfg with
    | Some u, Some p =>
        if truthy (Some u) && truthy (Some p) then Some (u, p) else None
    | _, _ => None
    end in
  Call ups_url request_auth false 5.

Section View.

(** [BeautifulSoup(table_html, "html.parser")] *)
Variable BeautifulSoup : string -> node.

(** The body of the inner [for]: one row of class [popupData]; the pattern
    [[c0; c1]] is the test [len(cols) == 2]. *)
Definition row_step (fmt : string) (data : dict pyval) (row : node)
  : dict pyval :=
  match find_all "td" None row with
  | [c0; c1] =>
      let key := get_text true c0 in
      let value := get_text true c1 in
      dict_set key
        (if String.eqb fmt "raw" then clean_value value else PStr value) data
  | _ => data
  end.

(** The inner [for] over the rows of class [popupData] of one fragment,
    from the empty [data]. *)
Definition section_data (fmt : string) (soup : node) : dict pyval :=
  fold_left (row_step fmt) (find_all "tr" (Some "popupData") soup) [].

(** The body of the outer [for]: one table fragment. *)
Definition table_step (fmt : string) (ups_data : dict pyval)
  (table_html : string) : exc (dict pyval) :=
  let soup := BeautifulSoup table_html in
  b <- attribute_of (find "b" soup) ;;
  let section := strip (get_text false b) in
  let data := section_data fmt soup in
  Ok (dict_set section (PDict data) ups_data).

Fixpoint tables_loop (fmt : string) (tables_raw : list string)
  (ups_data : dict pyval) : exc (dict pyval) :=
  match tables_raw with
  | [] => Ok ups_data
  | table_html :: rest =>
      d <- table_step fmt ups_data table_html ;;
      tables_loop fmt rest d
  end.

Definition get_ups_data (cfg : config) : view :=
  fun req w =>
    let fmt :=
      lower (match args_get "format" (args req) with
             | Some f => f
             | None => "json"
             end) in
    let (r, w') := requests_get (outbound_call cfg) w in
    match r with
    | FetchRaised message =>
        (Returned (PDict [("error", PStr message)]) 500, w')
    | Fetched js_content =>
        let tables_raw := findall re_table js_content in
        match tables_loop fmt tables_raw [] with
        | Raise e => (Raised e, w')
        | Ok ups_data =>
            (Returned
               (PDict (dict_update [("timestamp", PStr (utcnow w'))] ups_data))
               200, w')
        end
    end.

(** The route [/]: the view behind its decorator. *)
Definition route (cfg : config) : view :=
  require_api_key cfg (get_ups_data cfg).

End View.

End Server.

(* ------------------------------------------------------------------ *)
(** ** What the specification speaks of

    The notions the properties are stated with: what the patterns of the
    server find, written as plain left-to-right scans without backtracking
    (the facts below show that the matcher computes exactly these), the rows
    of a table that count, a header without its prefix, a number in decimal. *)

Module Spec.
Import PyStr.

(** The first character of a string is not in the class [p] (or there is
    none): where a greedy run of [p] has to stop. *)
Definition stops (p : ascii -> bool) (s : string) : Prop :=
  match s with
  | EmptyString => True
  | String c _ => p c = false
  end.

(** The longest prefix of [s] in the class [p]. *)
Fixpoint take_while (p : ascii -> bool) (s : string) : string :=
  match s with
  | EmptyString => EmptyString
  | String c s' => if p c then String c (take_while p s') else EmptyString
  end.

(** A run of digits at the head of [s], then optional space, then [marker]:
    the run and the text after the marker. *)
Definition digits_before_here (marker s : string) : option (string * string) :=
  match take_while isdigit s with
  | EmptyString => None
  | run =>
      let u := lstrip_by isspace (lstrip_by isdigit s) in
      if startswith marker u
      then Some (run, drop (String.length marker) u)
      else None
  end.

(** The first run of digits that [marker] follows, looking from left to
    right. *)
Fixpoint numeric_run_before (marker s : string) : option string :=
  match digits_before_here marker s with
  | Some (run, _) => Some run
  | None =>
      match s with
      | EmptyString => None
      | String _ s' => numeric_run_before marker s'
      end
  end.

(** The label and the value of every row that has exactly two cells, in
    the order of the rows. *)
Definition qualifying_rows (rows : list Soup.node) : list (string * string) :=
  flat_map
    (fun row =>
       match Soup.find_all "td" None row with
       | [c0; c1] => [(Soup.get_text true c0, Soup.get_text true c1)]
       | _ => []
       end)
    rows.

(** The header value without a leading [Bearer ] prefix. *)
Definition strip_bearer_prefix (h : string) : string :=
  if startswith "Bearer " h then drop 7 h else h.

(** The decimal text of a natural number. *)
Definition decimal (n : nat) : string :=
  DecimalString.NilEmpty.string_of_uint (Nat.to_uint n).

(** The first table fragment of a payload and the text after it: the first
    [label=<TABLE], then everything up to the first [</TABLE>] after it. *)
Definition first_table (text : string) : option (string * string) :=
  match partition "label=<TABLE" text with
  | None => None
  | Some (_, t) =>
      match partition "</TABLE>" t with
      | None => None
      | Some (body, rest) => Some ("<TABLE" ++ body ++ "</TABLE>", rest)
      end
  end.

End Spec.

(* ------------------------------------------------------------------ *)
(** ** Concrete configurations, requests and payloads *)

Module Examples.
Import Py Server.

Definition open_config : config := Config (Some "192.168.0.100") None None None.
Definition keyed_config : config :=
  Config (Some "192.168.0.100") (Some "admin") (Some "secret") (Some "S").

Definition plain_request : request := Request [] [].
Definition raw_request : request := Request [] [("format", "raw")].

Definition ok_view : view := fun _ w => (Returned (PDict []) 200, w).

(** A device that answers every call with the same payload. *)
Definition serving (payload : string) : world :=
  World (fun _ _ => Fetched payload) [] "2025-05-15T20:00:00+00:00".

(** A device that cannot be reached. *)
Definition unreachable : world :=
  World (fun _ _ => FetchRaised "Connection refused") []
        "2025-05-15T20:00:00+00:00".

Definition untitled_table : string :=
  "<TABLE><TR class='popupData'><TD>Voltage</TD><TD>235 V</TD></TR></TABLE>".

Definition battery_table : string :=
  "<TABLE><TR><TD><B>Battery</B></TD></TR><TR class='popupData'><TD>Battery load level</TD><TD>100 %</TD></TR><TR class='popupData'><TD>Remaining backup time</TD><TD>40 mn 22 s</TD></TR></TABLE>".

Definition two_tables : string :=
  "a='label=" ++ untitled_table ++ "';b='label=" ++ battery_table ++ "';".

Definition duplicate_table : string :=
  "<TABLE><TR><TD><B>Output</B></TD></TR><TR class='popupData'><TD>A</TD><TD>1</TD></TR><TR class='popupData'><TD>B</TD><TD>2</TD></TR><TR class='popupData'><TD>A</TD><TD>3</TD></TR></TABLE>".

(** [n] times the digit 9. *)
Fixpoint nines (n : nat) : string :=
  match n with
  | O => EmptyString
  | S n' => String "9" (nines n')
  end.

(** A run of digits one longer than [int] converts. *)
Definition long_run : string := nines (S int_max_str_digits).


End Examples.

(* ------------------------------------------------------------------ *)
(** ** [main]: the start from the command line *)

Module Main.
Import PyStr Py Server.

(** The value of an attribute of the parsed command line, and of a global
    that [main] assigns: [None], a text or an integer. *)
Inductive argvalue : Type :=
| ANone
| AStr (s : string)
| AInt (z : Z).

(** One [parser.add_argument(...)]: the option string, the [dest=] given
    with it if any, and the default. *)
Record argument : Type := Argument {
  option_string : string;
  explicit_dest : option string;
  default : argvalue
}.

(** The five arguments [main] declares. *)
Definition parser : list argument :=
  [ Argument "--ups_ip" (Some "ups_ip") ANone;
    Argument "--ups_username" None ANone;
    Argument "--ups_password" (Some "password") ANone;
    Argument "--server_api_key" None ANone;
    Argument "--server_port" None (AInt 5000) ].

(** The attribute an argument is stored under: its [dest=], or else the
    option string without its leading dashes, inner dashes turned into
    underscores. *)
Definition dest (a : argument) : string :=
  match explicit_dest a with
  | Some d => d
  | None => replace "-" "_" (lstrip_by (Ascii.eqb "-") (option_string a))
  end.

(** The [Namespace] that [parse_args()] returns. *)
Definition namespace : Type := dict argvalue.

(** [args.name] *)
Definition getattr (args : namespace) (name : string) : exc argvalue :=
  attribute_of (dict_get name args).

Definition arg_truthy (a : argvalue) : bool :=
  match a with
  | ANone => false
  | AStr s => negb (String.eqb s "")
  | AInt z => negb (Z.eqb z 0)
  end.

(** [a or b] *)
Definition py_or (a b : argvalue) : argvalue :=
  if arg_truthy a then a else b.

(** The four globals [main] assigns. *)
Record globals : Type := Globals {
  G_UPS_IP : argvalue;
  G_USERNAME : argvalue;
  G_PASSWORD : argvalue;
  G_SERVER_API_KEY : argvalue
}.

Definition of_option (o : option string) : argvalue :=
  match o with
  | Some s => AStr s
  | None => ANone
  end.

(** The globals as the module sets them from the environment. *)
Definition globals_of (cfg : config) : globals :=
  Globals (of_option (UPS_IP cfg)) (of_option (USERNAME cfg))
          (of_option (PASSWORD cfg)) (of_option (SERVER_API_KEY cfg)).

(** How [main] ends: an exception leaves it, the [RuntimeError] of a missing
    [UPS_IP] is raised, or [app.run(host, port)] is reached; each with the
    globals as they are then. *)
Inductive main_end : Type :=
| MainRaised (e : exn) (g : globals)
| MainRuntimeError (message : string) (g : globals)
| AppRun (host : string) (port : argvalue) (g : globals).

Section Body.

(** [int(s)] on the text of the environment variable [SERVER_PORT]. *)
Variable int_of_text : string -> exc Z.

(** [int(os.getenv("SERVER_PORT", 5000))] *)
Definition port_of_environment (environ : string -> option string)
  : exc argvalue :=
  match environ "SERVER_PORT" with
  | Some s => z <- int_of_text s ;; Ok (AInt z)
  | None => Ok (AInt 5000)
  end.

(** The body of [main] after [args = parser.parse_args()]. *)
Definition main (args : namespace) (environ : string -> option string)
  (g : globals) : main_end :=
  match getattr args "ups_ip" with
  | Raise e => MainRaised e g
  | Ok ups_ip =>
  let g1 := Globals (py_or ups_ip (G_UPS_IP g)) (G_USERNAME g)
                    (G_PASSWORD g) (G_SERVER_API_KEY g) in
  match getattr args "ups_username" with
  | Raise e => MainRaised e g1
  | Ok ups_username =>
  let g2 := Globals (G_UPS_IP g1) (py_or ups_username (G_USERNAME g1))
                    (G_PASSWORD g1) (G_SERVER_API_KEY g1) in
  match getattr args "ups_password" with
  | Raise e => MainRaised e g2
  | Ok ups_password =>
  let g3 := Globals (G_UPS_IP g2) (G_USERNAME g2)
                    (py_or ups_password (G_PASSWORD g2))
                    (G_SERVER_API_KEY g2) in
  match getattr args "server_api_key" with
  | Raise e => MainRaised e g3
  | Ok server_api_key =>
  let g4 := Globals (G_UPS_IP g3) (G_USERNAME g3) (G_PASSWORD g3)
                    (py_or server_api_key (G_SERVER_API_KEY g3)) in
  match getattr args "server_port" with
  | Raise e => MainRaised e g4
  | Ok server_port =>
  match (if arg_truthy server_port then Ok server_port
         else port_of_environment environ) with
  | Raise e => MainRaised e g4
  | Ok SERVER_PORT =>
      if negb (arg_truthy (G_UPS_IP g4))
      then MainRuntimeError
             "UPS_IP must be set via --ups_ip or environment" g4
      else AppRun "0.0.0.0" SERVER_PORT g4
  end end end end end end.

End Body.

(** The namespace of a command line without arguments: every attribute at
    its default. *)
Definition defaults : namespace :=
  map (fun a => (dest a, default a)) parser.

End Main.
(* ------------------------------------------------------------------ *)
(** ** Further notions: dictionaries, sections, numerals *)

Module Notions.
Import PyStr Py Soup Server Spec.

(** The value of the last pair of [kvs] whose key is [k]. *)
Fixpoint last_value {V : Type} (k : string) (kvs : list (string * V))
  : option V :=
  match kvs with
  | [] => None
  | (k', v) :: kvs' =>
      match last_value k kvs' with
      | Some v' => Some v'
      | None => if String.eqb k' k then Some v else None
      end
  end.

(** The elements of [l] that are not in [seen], each at its first
    occurrence. *)
Fixpoint first_occurrences (seen l : list string) : list string :=
  match l with
  | [] => []
  | x :: l' =>
      if mem x seen then first_occurrences seen l'
      else x :: first_occurrences (x :: seen) l'
  end.

(** The value a field takes for a cell text: normalized under [format=raw],
    the text itself otherwise. *)
Definition field_value (fmt value : string) : pyval :=
  if String.eqb fmt "raw" then clean_value value else PStr value.




(** The rows of class [popupData] of a fragment that count, as pairs of a
    label and a cell text. *)
Definition table_rows (soup : node) : list (string * string) :=
  qualifying_rows (find_all "tr" (Some "popupData") soup).

End Notions.

(** The language of a pattern, and the numerals of the generic pattern. *)

Module Language.
Import PyStr Re Py Server.

(** The texts a pattern matches in full. *)
Inductive matches : regex -> string -> Prop :=
| MLit (l : string) : matches (Lit l) l
| MStar (p : ascii -> bool) (w : string) :
    all p w = true -> matches (Star p) w
| MStarLazy (p : ascii -> bool) (w : string) :
    all p w = true -> matches (StarLazy p) w
| MPlus (p : ascii -> bool) (c : ascii) (w : string) :
    p c = true -> all p w = true -> matches (Plus p) (String c w)
| MOptNone (p : ascii -> bool) : matches (Opt p) EmptyString
| MOptSome (p : ascii -> bool) (c : ascii) :
    p c = true -> matches (Opt p) (String c EmptyString)
| MSeq (r1 r2 : regex) (w1 w2 : string) :
    matches r1 w1 -> matches r2 w2 -> matches (Seq r1 r2) (w1 ++ w2)
| MGroup (r : regex) (w : string) : matches r w -> matches (Group r) w.

(** [w] stands in [before ++ w ++ rest] where the pattern [r] first has a
    text: [w] is a text of [r], and no text of [r], of whatever length,
    starts at a position of [before]. *)
Definition first_text (r : regex) (before w rest : string) : Prop :=
  matches r w
  /\ forall b1 b2 u t,
       before = b1 ++ b2 -> b2 <> "" -> b2 ++ w ++ rest = u ++ t ->
       ~ matches r u.

(** A numeral as the generic pattern matches it in full: an optional sign,
    digits, and either nothing more (at least one digit then) or a point and
    at least one digit. *)
Definition is_numeral (s : string) : bool :=
  let s1 := skip_sign s in
  match lstrip_by isdigit s1 with
  | EmptyString => negb (String.eqb s1 "")
  | String c s3 => is_point c && negb (String.eqb s3 "") && all isdigit s3
  end.

(** The generic pattern after its optional sign. *)
Definition number_tail : regex :=
  Seq (Star isdigit) (Seq (Opt is_point) (Plus isdigit)).

(** The characters of a numeral. *)
Definition numeral_char (c : ascii) : bool :=
  isdigit c || is_sign c || is_point c.

End Language.

(* ------------------------------------------------------------------ *)
(** * Facts *)

(** ** Strings *)

Module PyStrFacts.
Import PyStr Spec.

(** A proof by cases on the eight bits of a character. *)
Ltac by_cases_on c :=
  destruct c as [[|] [|] [|] [|] [|] [|] [|] [|]]; vm_compute;
  try reflexivity; try discriminate; auto.

Lemma app_nil_r (s : string) : s ++ "" = s.
Proof. induction s; simpl; congruence. Qed.

Lemma app_assoc (a b c : string) : (a ++ b) ++ c = a ++ b ++ c.
Proof. induction a; simpl; congruence. Qed.

Lemma length_app (a b : string) :
  String.length (a ++ b) = String.length a + String.length b.
Proof. induction a; simpl; congruence. Qed.

Lemma drop_app (a b : string) : drop (String.length a) (a ++ b) = b.
Proof. induction a; simpl; auto. Qed.

Lemma take_app (a b : string) : take (String.length a) (a ++ b) = a.
Proof. induction a; simpl; congruence. Qed.

Lemma drop_drop (n m : nat) (s : string) : drop n (drop m s) = drop (m + n) s.
Proof.
  revert s; induction m as [|m IH]; intros s; simpl; auto.
  destruct s; simpl; auto. now destruct n.
Qed.

Lemma startswith_app (p s : string) : startswith p (p ++ s) = true.
Proof.
  induction p as [|a p IH]; simpl; auto.
  now rewrite Ascii.eqb_refl, IH.
Qed.

Lemma startswith_split (p s : string) :
  startswith p s = true -> s = p ++ drop (String.length p) s.
Proof.
  revert s; induction p as [|a p IH]; intros s H; simpl in *; auto.
  destruct s as [|b s]; [discriminate|].
  apply andb_true_iff in H as [Hab Hp].
  apply Ascii.eqb_eq in Hab; subst b.
  simpl. f_equal. now apply IH.
Qed.

Lemma startswith_head (a b : ascii) (p s : string) :
  a <> b -> startswith (String a p) (String b s) = false.
Proof.
  intros Hab; simpl.
  destruct (Ascii.eqb a b) eqn:E; auto.
  apply Ascii.eqb_eq in E; contradiction.
Qed.

Lemma contains_here (p s : string) :
  startswith p s = true -> contains p s = true.
Proof. intros H. destruct s; simpl in *; now rewrite H. Qed.

Lemma contains_app (p a b : string) : contains p (a ++ p ++ b) = true.
Proof.
  induction a as [|c a IH].
  - cbn [append]. apply contains_here, startswith_app.
  - simpl. now rewrite IH, orb_true_r.
Qed.

Lemma partition_split (sep s a b : string) :
  partition sep s = Some (a, b) -> s = a ++ sep ++ b.
Proof.
  revert a b; induction s as [|c s IH]; intros a b; simpl.
  - destruct (startswith sep "") eqn:E; [|discriminate].
    intros [= <- <-]. now apply startswith_split in E.
  - destruct (startswith sep (String c s)) eqn:E.
    + intros [= <- <-]. now apply startswith_split in E.
    + destruct (partition sep s) as [[a' b']|]; [|discriminate].
      intros [= <- <-]. simpl. f_equal. now apply IH.
Qed.

Lemma partition_none_drop (sep s : string) (n : nat) :
  partition sep s = None -> partition sep (drop n s) = None.
Proof.
  revert s; induction n as [|n IH]; intros s H; simpl; auto.
  destruct s as [|c s]; auto.
  apply IH. simpl in H.
  destruct (startswith sep (String c s)); [discriminate|].
  now destruct (partition sep s) as [[? ?]|].
Qed.

Lemma partition_none_contains (sep s : string) :
  partition sep s = None <-> contains sep s = false.
Proof.
  induction s as [|c s IH]; simpl.
  - destruct (startswith sep ""); simpl; split; congruence.
  - destruct (startswith sep (String c s)); simpl.
    + split; congruence.
    + destruct (partition sep s) as [[? ?]|]; split; intros H;
        try discriminate; try (apply IH; auto).
      apply IH in H; discriminate.
Qed.

(** *** Character classes *)

Lemma digit_not_space (c : ascii) : isdigit c = true -> isspace c = false.
Proof. by_cases_on c. Qed.

Lemma lower_digit (c : ascii) : isdigit (lower_char c) = isdigit c.
Proof. by_cases_on c. Qed.

Lemma lower_space (c : ascii) : isspace c = true -> lower_char c = c.
Proof. by_cases_on c. Qed.

Lemma lower_keeps_digit (c : ascii) : isdigit c = true -> lower_char c = c.
Proof. by_cases_on c. Qed.

Lemma lower_app (a b : string) : lower (a ++ b) = lower a ++ lower b.
Proof. induction a; simpl; congruence. Qed.

Lemma lower_all_space (w : string) : all isspace w = true -> lower w = w.
Proof.
  induction w as [|c w IH]; simpl; auto.
  intros H; apply andb_true_iff in H as [Hc Hw].
  now rewrite lower_space, IH.
Qed.

Lemma lower_all_digit (d : string) : all isdigit d = true -> lower d = d.
Proof.
  induction d as [|c d IH]; simpl; auto.
  intros H; apply andb_true_iff in H as [Hc Hd].
  now rewrite lower_keeps_digit, IH.
Qed.

Lemma any_lower_digit (s : string) : any isdigit (lower s) = any isdigit s.
Proof. induction s; simpl; auto. now rewrite lower_digit, IHs. Qed.

(** *** Stripping, runs of a class and searches *)

Lemma lstrip_app (p : ascii -> bool) (w s : string) :
  all p w = true -> lstrip_by p (w ++ s) = lstrip_by p s.
Proof.
  induction w as [|c w IH]; simpl; auto.
  intros H; apply andb_true_iff in H as [Hc Hw]. now rewrite Hc, IH.
Qed.

Lemma lstrip_stops (p : ascii -> bool) (s : string) :
  stops p s -> lstrip_by p s = s.
Proof. destruct s; simpl; auto. now intros ->. Qed.

Lemma lstrip_by_stops (p : ascii -> bool) (s : string) :
  stops p (lstrip_by p s).
Proof.
  induction s as [|c s IH]; simpl; auto.
  destruct (p c) eqn:E; simpl; auto.
Qed.

Lemma rstrip_all (p : ascii -> bool) (w : string) :
  all p w = true -> rstrip_by p w = "".
Proof.
  induction w as [|c w IH]; simpl; auto.
  intros H; apply andb_true_iff in H as [Hc Hw]. now rewrite IH, Hc.
Qed.

Lemma rstrip_cons (p : ascii -> bool) (c : ascii) (s : string) :
  p c = false -> rstrip_by p (String c s) = String c (rstrip_by p s).
Proof. intros H; simpl. rewrite H. now destruct (rstrip_by p s). Qed.

Lemma rstrip_app (p : ascii -> bool) (a b : string) :
  rstrip_by p b <> "" -> rstrip_by p (a ++ b) = a ++ rstrip_by p b.
Proof.
  intros Hb; induction a as [|c a IH]; simpl; auto.
  rewrite IH. destruct (a ++ rstrip_by p b) eqn:E; auto.
  destruct a; simpl in E; [contradiction|discriminate].
Qed.

Lemma any_lstrip (q p : ascii -> bool) (s : string) :
  any q s = false -> any q (lstrip_by p s) = false.
Proof.
  induction s as [|c s IH]; simpl; auto.
  intros H; apply orb_false_iff in H as [Hc Hs].
  destruct (p c); simpl; auto. now rewrite Hc, Hs.
Qed.

Lemma any_rstrip (q p : ascii -> bool) (s : string) :
  any q s = false -> any q (rstrip_by p s) = false.
Proof.
  induction s as [|c s IH]; simpl; auto.
  intros H; apply orb_false_iff in H as [Hc Hs].
  specialize (IH Hs).
  destruct (rstrip_by p s) eqn:E.
  - destruct (p c); simpl; auto. now rewrite Hc.
  - simpl in *. now rewrite Hc, IH.
Qed.

Lemma any_strip (q p : ascii -> bool) (s : string) :
  any q s = false -> any q (strip_by p s) = false.
Proof. intros H. unfold strip_by. now apply any_rstrip, any_lstrip. Qed.

Lemma startswith_app_split (a b s : string) :
  startswith (a ++ b) s = startswith a s && startswith b (drop (String.length a) s).
Proof.
  revert s; induction a as [|c a IH]; intros s; simpl; auto.
  destruct s as [|d s]; auto.
  rewrite IH. now rewrite andb_assoc.
Qed.

Lemma partition_here (sep s : string) :
  startswith sep s = true ->
  partition sep s = Some ("", drop (String.length sep) s).
Proof. intros H. destruct s; simpl; now rewrite H. Qed.

Lemma partition_later (sep : string) (c : ascii) (s : string) :
  startswith sep (String c s) = false ->
  partition sep (String c s) =
  match partition sep s with
  | Some (a, b) => Some (String c a, b)
  | None => None
  end.
Proof. intros H. simpl partition. now rewrite H. Qed.

Lemma any_tail (p : ascii -> bool) (c : ascii) (s : string) :
  any p (String c s) = false -> p c = false /\ any p s = false.
Proof. simpl. apply orb_false_iff. Qed.

Lemma no_digit_stops (s : string) : any isdigit s = false -> stops isdigit s.
Proof. destruct s; simpl; auto. intros H. now apply orb_false_iff in H. Qed.

Lemma stops_app (p q : ascii -> bool) (w : string) (a : ascii) (x : string) :
  (forall c, q c = true -> p c = false) -> p a = false ->
  all q w = true -> stops p (w ++ String a x).
Proof.
  intros Hqp Ha Hw. destruct w as [|c w]; simpl; auto.
  simpl in Hw. apply andb_true_iff in Hw as [Hc _]. auto.
Qed.

Lemma take_while_app (p : ascii -> bool) (d r : string) :
  all p d = true -> stops p r -> take_while p (d ++ r) = d.
Proof.
  intros Hd Hr. induction d as [|c d IH]; simpl.
  - destruct r; simpl in *; auto. now rewrite Hr.
  - simpl in Hd. apply andb_true_iff in Hd as [Hc Hd].
    now rewrite Hc, IH.
Qed.

Lemma lstrip_all_app (p : ascii -> bool) (w r : string) :
  all p w = true -> stops p r -> lstrip_by p (w ++ r) = r.
Proof. intros Hw Hr. now rewrite lstrip_app, lstrip_stops. Qed.

Lemma space_not_digit (c : ascii) : isspace c = true -> isdigit c = false.
Proof. by_cases_on c. Qed.

Lemma any_app (p : ascii -> bool) (a b : string) :
  any p (a ++ b) = any p a || any p b.
Proof. induction a; simpl; auto. now rewrite IHa, orb_assoc. Qed.

Lemma all_space_no_digit (w : string) :
  all isspace w = true -> any isdigit w = false.
Proof.
  induction w as [|c w IH]; simpl; auto.
  intros H; apply andb_true_iff in H as [Hc Hw].
  now rewrite space_not_digit, IH.
Qed.

Lemma rstrip_end (p : ascii -> bool) (a : string) (c : ascii) (w : string) :
  p c = false -> all p w = true ->
  rstrip_by p (a ++ String c w) = a ++ String c "".
Proof.
  intros Hc Hw.
  assert (H : rstrip_by p (String c w) = String c "")
    by (now rewrite rstrip_cons, rstrip_all).
  rewrite rstrip_app; rewrite H; [reflexivity|discriminate].
Qed.

Lemma lower_single (s : string) (a : ascii) :
  lower s = String a "" -> exists c, s = String c "" /\ lower_char c = a.
Proof.
  destruct s as [|c [|? ?]]; simpl; try discriminate.
  intros [= <-]. eauto.
Qed.

Lemma lower_s_not_space (c : ascii) :
  lower_char c = "s"%char -> isspace c = false.
Proof. by_cases_on c. Qed.

Lemma contains_end (p a : string) : contains p (a ++ p) = true.
Proof. rewrite <- (app_nil_r p) at 2. apply contains_app. Qed.

Lemma contains_head (a : ascii) (l s : string) :
  contains (String a l) s = true -> any (Ascii.eqb a) s = true.
Proof.
  induction s as [|c s IH]; simpl; [discriminate|].
  destruct (Ascii.eqb a c); simpl; auto.
Qed.

Lemma any_replace_percent (q : ascii -> bool) (s : string) :
  q "%"%char = false -> any q (replace "%" "" s) = any q s.
Proof.
  intros Hq. unfold replace. induction s as [|c s IH]; [reflexivity|].
  cbn [replace_scan startswith String.length Nat.sub andb].
  destruct (Ascii.eqb "%" c) eqn:E.
  - apply Ascii.eqb_eq in E; subst c. cbn [andb append any].
    now rewrite Hq, IH.
  - cbn [andb any]. now rewrite IH.
Qed.

Lemma any_lstrip_keep (q p : ascii -> bool) (s : string) :
  (forall c, q c = true -> p c = false) ->
  any q (lstrip_by p s) = any q s.
Proof.
  intros Hqp. induction s as [|c s IH]; simpl; auto.
  destruct (p c) eqn:E; simpl; auto.
  destruct (q c) eqn:Eq; simpl; auto.
  rewrite (Hqp _ Eq) in E; discriminate.
Qed.

Lemma any_rstrip_keep (q p : ascii -> bool) (s : string) :
  (forall c, q c = true -> p c = false) ->
  any q (rstrip_by p s) = any q s.
Proof.
  intros Hqp. induction s as [|c s IH]; simpl; auto.
  destruct (rstrip_by p s) eqn:E.
  - rewrite <- IH. simpl. rewrite orb_false_r.
    destruct (p c) eqn:Ep; simpl; [|now rewrite orb_false_r].
    destruct (q c) eqn:Eq; auto.
    rewrite (Hqp _ Eq) in Ep; discriminate.
  - rewrite <- IH. reflexivity.
Qed.

Lemma any_strip_keep (q p : ascii -> bool) (s : string) :
  (forall c, q c = true -> p c = false) ->
  any q (strip_by p s) = any q s.
Proof.
  intros Hqp. unfold strip_by.
  now rewrite any_rstrip_keep, any_lstrip_keep.
Qed.

Lemma any_lower_keep (q : ascii -> bool) (s : string) :
  (forall c, q c = true -> q (lower_char c) = true) ->
  any q s = true -> any q (lower s) = true.
Proof.
  intros Hq. induction s as [|c s IH]; simpl; auto.
  intros H; apply orb_true_iff in H as [H|H].
  - now rewrite Hq.
  - rewrite IH by assumption. apply orb_true_r.
Qed.

Lemma mem_In (x : string) (l : list string) : mem x l = true -> In x l.
Proof.
  induction l as [|y l IH]; simpl; [discriminate|].
  intros H; apply orb_true_iff in H as [H|H]; auto.
  left. symmetry. now apply String.eqb_eq.
Qed.

Lemma rstrip_rstrip (p q : ascii -> bool) (s : string) :
  (forall c, p c = true -> q c = true) ->
  rstrip_by p (rstrip_by q s) = rstrip_by q s.
Proof.
  intros Hpq. induction s as [|c s IH]; simpl; auto.
  destruct (rstrip_by q s) as [|d r] eqn:E.
  - destruct (q c) eqn:Eq; simpl; auto.
    destruct (p c) eqn:Ep; auto.
    rewrite (Hpq _ Ep) in Eq; discriminate.
  - change (rstrip_by p (String c (String d r)) = String c (String d r)).
    cbn [rstrip_by] in IH |- *. now rewrite IH.
Qed.

Lemma strip_stops (q : ascii -> bool) (s : string) : stops q (strip_by q s).
Proof.
  unfold strip_by. pose proof (lstrip_by_stops q s) as H.
  destruct (lstrip_by q s) as [|c t]; simpl in *; auto.
  pose proof (rstrip_cons q c t H) as Hr. simpl in Hr. rewrite Hr.
  simpl. assumption.
Qed.

Lemma strip_strip (p q : ascii -> bool) (s : string) :
  (forall c, p c = true -> q c = true) ->
  strip_by p (strip_by q s) = strip_by q s.
Proof.
  intros Hpq. unfold strip_by at 1.
  rewrite lstrip_stops.
  - unfold strip_by. now apply rstrip_rstrip.
  - pose proof (strip_stops q s) as H.
    destruct (strip_by q s) as [|c t]; simpl in *; auto.
    destruct (p c) eqn:Ep; auto.
    rewrite (Hpq _ Ep) in H; discriminate.
Qed.

Lemma lower_m (c : ascii) :
  Ascii.eqb "m" c = true -> Ascii.eqb "m" (lower_char c) = true.
Proof. by_cases_on c. Qed.

Lemma m_not_space (c : ascii) : Ascii.eqb "m" c = true -> isspace c = false.
Proof. by_cases_on c. Qed.

End PyStrFacts.

(** ** The matcher *)

Module ReFacts.
Import PyStr Spec PyStrFacts Re.

Lemma consumed_app (a b : string) : consumed (a ++ b) b = a.
Proof.
  unfold consumed. rewrite length_app.
  replace (String.length a + String.length b - String.length b)
    with (String.length a) by lia.
  apply take_app.
Qed.

Lemma take_while_lstrip (p : ascii -> bool) (s : string) :
  s = take_while p s ++ lstrip_by p s.
Proof.
  induction s as [|c s IH]; simpl; auto.
  destruct (p c); simpl; congruence.
Qed.

Lemma consumed_take_while (p : ascii -> bool) (s : string) :
  consumed s (lstrip_by p s) = take_while p s.
Proof.
  rewrite (take_while_lstrip p s) at 1. apply consumed_app.
Qed.

(** A greedy run whose continuation fails on every character of the class
    never gains by giving characters back: it is the continuation after the
    longest run. *)
Lemma star_greedy {R : Type} (p : ascii -> bool) (k : string -> option R)
  (s : string) :
  (forall c t, p c = true -> k (String c t) = None) ->
  star p k s = k (lstrip_by p s).
Proof.
  intros Hk; induction s as [|c s IH]; simpl; auto.
  destruct (p c) eqn:E; auto.
  rewrite IH, (Hk c s E). now destruct (k (lstrip_by p s)).
Qed.

(** A lazy run of any character in front of a literal stops at the first
    occurrence of the literal. *)
Lemma star_lazy_partition {R : Type} (p : ascii -> bool) (sep : string)
  (F : string -> R) (k : string -> option R) (s : string) :
  (forall c, p c = true) ->
  (forall t, k t = if startswith sep t
                   then Some (F (drop (String.length sep) t)) else None) ->
  star_lazy p k s = match partition sep s with
                    | Some (_, rest) => Some (F rest)
                    | None => None
                    end.
Proof.
  intros Hp Hk; induction s as [|c s IH]; simpl; rewrite Hk.
  - now destruct (startswith sep "").
  - destruct (startswith sep (String c s)); auto.
    rewrite Hp, IH. now destruct (partition sep s) as [[? ?]|].
Qed.

Lemma search_here (r : regex) (s : string) (m : match_object) :
  match_here r s = Some m -> search r s = Some m.
Proof. intros H. destruct s; simpl; now rewrite H. Qed.

Lemma search_next (r : regex) (c : ascii) (s : string) :
  match_here r (String c s) = None -> search r (String c s) = search r s.
Proof. intros H. simpl. now rewrite H. Qed.

(** A pattern that needs a digit finds nothing in a text without one. *)
Lemma search_needs_digit (r : regex) (s : string) :
  (forall t, any isdigit t = false -> match_here r t = None) ->
  any isdigit s = false -> search r s = None.
Proof.
  intros Hr; induction s as [|c s IH]; intros Hs; simpl.
  - now rewrite Hr.
  - rewrite (Hr _ Hs). simpl in Hs.
    apply orb_false_iff in Hs as [_ Hs]. auto.
Qed.

Lemma finditer_skip (r : regex) (n : nat) (s : string) :
  n <= String.length s -> finditer r s n = finditer r (drop n s) 0.
Proof.
  revert s; induction n as [|n IH]; intros s Hn; [reflexivity|].
  destruct s as [|c s]; simpl in Hn; [lia|].
  simpl. apply IH. lia.
Qed.

(** After a non-empty match the scan goes on from the end of the match. *)
Lemma finditer_match (r : regex) (s : string) (m : match_object) :
  match_here r s = Some m ->
  group0 m <> "" ->
  s = group0 m ++ after m ->
  finditer r s 0 = m :: finditer r (after m) 0.
Proof.
  intros Hm Hne Hs.
  destruct s as [|c s].
  - destruct (group0 m); [contradiction|discriminate].
  - simpl. rewrite Hm. f_equal.
    destruct (group0 m) as [|c0 g] eqn:Eg; [contradiction|].
    simpl in Hs. injection Hs as -> ->.
    simpl. rewrite Nat.sub_0_r.
    rewrite finditer_skip by (rewrite length_app; lia).
    now rewrite drop_app.
Qed.

Lemma finditer_no_match (r : regex) (c : ascii) (s : string) :
  match_here r (String c s) = None ->
  finditer r (String c s) 0 = finditer r s 0.
Proof. intros H. simpl. now rewrite H. Qed.

Lemma plus_needs_digit {R : Type} (u : string) (g : option string)
  (k : string -> option string -> option R) :
  any isdigit u = false -> run (Plus isdigit) u g k = None.
Proof.
  destruct u as [|c u]; simpl; auto.
  intros H; apply orb_false_iff in H as [-> _]. reflexivity.
Qed.

Lemma star_stops {R : Type} (p : ascii -> bool) (k : string -> option R)
  (s : string) :
  stops p s -> star p k s = k s.
Proof. destruct s; simpl; auto. now intros ->. Qed.

Lemma star_fallback {R : Type} (p : ascii -> bool) (k : string -> option R)
  (s : string) :
  k s <> None -> star p k s <> None.
Proof.
  intros H. destruct s as [|c s]; simpl; auto.
  destruct (p c); auto. now destruct (star p k s).
Qed.

Lemma star_total {R : Type} (p : ascii -> bool) (k : string -> option R)
  (s : string) :
  (forall t, k t <> None) -> star p k s <> None.
Proof. intros H. now apply star_fallback. Qed.

End ReFacts.

(** ** [float] *)

Module PyFacts.
Import PyStr Spec PyStrFacts Py.

Lemma float_blank_space (c : ascii) : float_blank c = true -> isspace c = true.
Proof. by_cases_on c. Qed.

Lemma any_skip_sign (q : ascii -> bool) (s : string) :
  q "+"%char = false -> q "-"%char = false ->
  any q (skip_sign s) = any q s.
Proof.
  intros Hp Hm. destruct s as [|c s]; [reflexivity|].
  unfold skip_sign.
  destruct (Ascii.eqb c "+") eqn:E1; [|destruct (Ascii.eqb c "-") eqn:E2].
  - apply Ascii.eqb_eq in E1; subst c. cbn [orb any]. now rewrite Hp.
  - apply Ascii.eqb_eq in E2; subst c. cbn [orb any]. now rewrite Hm.
  - reflexivity.
Qed.

(** A character class closed under [lower] that misses the signs and the
    letters of [inf], [infinity] and [nan] misses every word [float]
    accepts. *)
Lemma float_word_lacks (q : ascii -> bool) (t : string) :
  q "+"%char = false -> q "-"%char = false ->
  (forall c, q c = true -> q (lower_char c) = true) ->
  any q "infinity" = false -> any q "nan" = false ->
  float_word t = true -> any q t = false.
Proof.
  intros Hp Hm Hl Hi Hn Hw.
  destruct (any q t) eqn:E; [|reflexivity].
  rewrite <- (any_skip_sign q t Hp Hm) in E.
  apply (any_lower_keep q _ Hl) in E.
  unfold float_word in Hw. apply mem_In in Hw.
  simpl in Hw, Hi, Hn.
  destruct Hw as [Hw|[Hw|[Hw|[]]]]; rewrite <- Hw in E; simpl in E.
  - apply orb_false_iff in Hi as [Hi1 Hi]. apply orb_false_iff in Hi as [Hi2 Hi].
    apply orb_false_iff in Hi as [Hi3 _].
    now rewrite Hi1, Hi2, Hi3 in E.
  - now rewrite Hi in E.
  - now rewrite Hn in E.
Qed.

Lemma span_digits_stops (v : string) :
  stops isdigit v -> span_digits v = (0, v).
Proof. destruct v; simpl; auto. now intros ->. Qed.

Lemma float_number_needs_digit (u : string) :
  any isdigit u = false -> float_number u = false.
Proof.
  intros Hu. unfold float_number.
  assert (Hs : any isdigit (skip_sign u) = false)
    by (now rewrite any_skip_sign).
  rewrite span_digits_stops by now apply no_digit_stops.
  destruct (skip_sign u) as [|c v]; [reflexivity|].
  apply any_tail in Hs as [_ Hv].
  destruct (Ascii.eqb c "."); [|reflexivity].
  now rewrite span_digits_stops by now apply no_digit_stops.
Qed.

Lemma any_remove_underscores (q : ascii -> bool) (t : string) :
  any q t = false -> any q (remove_underscores t) = false.
Proof.
  induction t as [|c t IH]; simpl; auto.
  intros H; apply orb_false_iff in H as [Hc Ht].
  destruct (is_underscore c); simpl; auto. now rewrite Hc, IH.
Qed.

(** Without a digit next to it no underscore is accepted. *)
Lemma underscores_need_digit (prev : ascii) (t : string) :
  isdigit prev = false -> any isdigit t = false ->
  underscores_ok prev t = true -> remove_underscores t = t.
Proof.
  revert prev; induction t as [|c t IH]; intros prev Hp Ht; simpl; auto.
  apply any_tail in Ht as [Hc Ht].
  destruct (is_underscore c) eqn:E.
  - rewrite Hp. discriminate.
  - intros H; apply andb_true_iff in H as [_ H].
    f_equal. eauto.
Qed.

Lemma underscores_absent (prev : ascii) (t : string) :
  is_underscore prev = false -> any is_underscore t = false ->
  underscores_ok prev t = true /\ remove_underscores t = t.
Proof.
  revert prev; induction t as [|c t IH]; intros prev Hp Ht; simpl.
  - now rewrite Hp.
  - apply any_tail in Ht as [Hc Ht]. rewrite Hc, Hp.
    destruct (IH c Hc Ht) as [-> ->]. auto.
Qed.

Lemma lower_underscore (c : ascii) :
  is_underscore c = true -> is_underscore (lower_char c) = true.
Proof. by_cases_on c. Qed.

(** On a stripped text without a digit, [float] accepts the three words
    and nothing else. *)
Lemma float_accepts_without_digit (x : string) :
  any isdigit (strip x) = false ->
  float_accepts (strip x) = float_word (strip x).
Proof.
  intros Hd. unfold float_accepts.
  unfold strip at 1 2 3. rewrite (strip_strip float_blank isspace)
    by apply float_blank_space.
  fold (strip x). set (t := strip x) in *.
  rewrite (float_number_needs_digit (remove_underscores t))
    by now apply any_remove_underscores.
  rewrite orb_false_r.
  destruct (float_word t) eqn:Ew.
  - pose proof (float_word_lacks is_underscore t eq_refl eq_refl
                  lower_underscore eq_refl eq_refl Ew) as Hu.
    destruct (underscores_absent "000" t eq_refl Hu) as [-> ->].
    now rewrite Ew.
  - destruct (underscores_ok "000" t) eqn:Eu; [|reflexivity].
    rewrite (underscores_need_digit "000" t eq_refl Hd Eu). now rewrite Ew.
Qed.

(** *** Decimal texts *)

Lemma int_digits_of_uint (d : Decimal.uint) (acc : nat) :
  int_digits (Z.of_nat acc) (NilEmpty.string_of_uint d)
  = Z.of_nat (Nat.of_uint_acc d acc).
Proof.
  revert acc; induction d; intros acc; cbn [NilEmpty.string_of_uint int_digits Nat.of_uint_acc];
    try reflexivity;
    rewrite <- IHd; f_equal; rewrite Nat.tail_mul_spec;
    unfold digit_value;
    match goal with
    | |- context [Z.of_nat (code ?c)] =>
        let v := eval vm_compute in (Z.of_nat (code c)) in
        change (Z.of_nat (code c)) with v
    end; lia.
Qed.

Lemma all_digits_of_uint (d : Decimal.uint) :
  all isdigit (NilEmpty.string_of_uint d) = true.
Proof. induction d; simpl; auto. Qed.

Lemma int_digits_decimal (n : nat) : int_digits 0 (decimal n) = Z.of_nat n.
Proof.
  unfold decimal. rewrite (int_digits_of_uint _ 0).
  change (Nat.of_uint_acc (Nat.to_uint n) 0) with (Nat.of_uint (Nat.to_uint n)).
  now rewrite DecimalNat.Unsigned.of_to.
Qed.

Lemma all_digits_decimal (n : nat) : all isdigit (decimal n) = true.
Proof. apply all_digits_of_uint. Qed.

Lemma decimal_not_empty (n : nat) : decimal n <> "".
Proof.
  unfold decimal. intros H.
  destruct (Nat.to_uint n) eqn:E; try discriminate H.
  pose proof (DecimalNat.Unsigned.of_to n) as Hn. rewrite E in Hn.
  simpl in Hn. subst n. discriminate E.
Qed.

End PyFacts.

(** ** The patterns of the server and [clean_value] *)

Module ServerFacts.
Import PyStr Spec PyStrFacts Re ReFacts Py PyFacts Soup Server.

Lemma match_here_table (s : string) :
  match_here re_table s =
  if startswith "label=<TABLE" s
  then match partition "</TABLE>" (drop 12 s) with
       | Some (body, rest) =>
           Some (MatchObject ("label=<TABLE" ++ body ++ "</TABLE>")
                             (Some ("<TABLE" ++ body ++ "</TABLE>")) rest)
       | None => None
       end
  else None.
Proof.
  unfold match_here, re_table. cbn [run].
  change "label=<TABLE" with ("label=" ++ "<TABLE").
  rewrite startswith_app_split.
  destruct (startswith "label=" s) eqn:E1; [|reflexivity].
  destruct (startswith "<TABLE" (drop (String.length "label=") s)) eqn:E2; [|reflexivity].
  cbn [andb].
  apply startswith_split in E1.
  remember (drop (String.length "label=") s) as s1 eqn:Hs1.
  apply startswith_split in E2.
  remember (drop (String.length "<TABLE") s1) as s2 eqn:Hs2.
  replace (drop 12 s) with s2
    by (rewrite Hs2, Hs1, drop_drop; reflexivity).
  clear Hs1 Hs2. subst s s1.
  erewrite (star_lazy_partition any_char "</TABLE>"
             (fun t => MatchObject (consumed ("label=" ++ "<TABLE" ++ s2) t)
                                   (Some (consumed ("<TABLE" ++ s2) t)) t));
    [|reflexivity|reflexivity].
  destruct (partition "</TABLE>" s2) as [[body rest]|] eqn:E3; [|reflexivity].
  apply partition_split in E3. subst s2.
  assert (H0 : "label=" ++ "<TABLE" ++ body ++ "</TABLE>" ++ rest
               = ("label=<TABLE" ++ body ++ "</TABLE>") ++ rest)
    by (now rewrite !app_assoc).
  assert (H1 : "<TABLE" ++ body ++ "</TABLE>" ++ rest
               = ("<TABLE" ++ body ++ "</TABLE>") ++ rest)
    by (now rewrite !app_assoc).
  rewrite H0, H1, !consumed_app. reflexivity.
Qed.

Lemma finditer_no_close (t : string) :
  partition "</TABLE>" (drop 12 t) = None -> finditer re_table t 0 = [].
Proof.
  induction t as [|c t IH]; intros H.
  - reflexivity.
  - rewrite finditer_no_match.
    + apply IH. change (drop 12 (String c t)) with (drop 11 t) in H.
      apply (partition_none_drop _ _ 1) in H.
      now rewrite drop_drop in H.
    + rewrite match_here_table, H. now destruct (startswith _ _).
Qed.

Lemma finditer_tables (text : string) :
  finditer re_table text 0 =
  match partition "label=<TABLE" text with
  | None => []
  | Some (_, t) =>
      match partition "</TABLE>" t with
      | None => []
      | Some (body, rest) =>
          MatchObject ("label=<TABLE" ++ body ++ "</TABLE>")
                      (Some ("<TABLE" ++ body ++ "</TABLE>")) rest
          :: finditer re_table rest 0
      end
  end.
Proof.
  induction text as [|c text IH]; [reflexivity|].
  destruct (startswith "label=<TABLE" (String c text)) eqn:E.
  - rewrite (partition_here _ _ E).
    change (String.length "label=<TABLE") with 12.
    destruct (partition "</TABLE>" (drop 12 (String c text)))
      as [[body rest]|] eqn:E2.
    + apply finditer_match.
      * now rewrite match_here_table, E, E2.
      * discriminate.
      * cbn [group0 after].
        rewrite (startswith_split _ _ E) at 1.
        change (String.length "label=<TABLE") with 12.
        rewrite (partition_split _ _ _ _ E2).
        now rewrite !app_assoc.
    + now apply finditer_no_close.
  - rewrite finditer_no_match by (now rewrite match_here_table, E).
    rewrite (partition_later _ _ _ E), IH.
    now destruct (partition "label=<TABLE" text) as [[a t]|].
Qed.

Lemma match_here_run (a : ascii) (l s : string) :
  isdigit a = false -> isspace a = false ->
  match_here (Seq (Group (Plus isdigit)) (Seq (Star isspace) (Lit (String a l)))) s =
  match digits_before_here (String a l) s with
  | Some (run, rest) => Some (MatchObject (consumed s rest) (Some run) rest)
  | None => None
  end.
Proof.
  intros Hd Hs. unfold match_here, digits_before_here. cbn [run].
  destruct s as [|c s]; [reflexivity|].
  cbn [take_while lstrip_by].
  destruct (isdigit c) eqn:Ec; [|reflexivity].
  rewrite star_greedy.
  - rewrite star_greedy.
    + destruct (startswith _ _); [|reflexivity].
      do 2 f_equal.
      pose proof (consumed_take_while isdigit (String c s)) as H.
      cbn [lstrip_by take_while] in H. rewrite Ec in H. now rewrite H.
    + intros c' t Hc'. rewrite startswith_head; [reflexivity|].
      intros ->. congruence.
  - intros c' t Hc'.
    rewrite star_greedy.
    + cbn [lstrip_by]. rewrite (digit_not_space _ Hc').
      rewrite startswith_head; [reflexivity|]. intros ->. congruence.
    + intros c2 t2 Hc2. rewrite startswith_head; [reflexivity|].
      intros ->. congruence.
Qed.

Lemma search_run (a : ascii) (l s : string) :
  isdigit a = false -> isspace a = false ->
  option_map group1
    (search (Seq (Group (Plus isdigit)) (Seq (Star isspace) (Lit (String a l)))) s)
  = option_map Some (numeric_run_before (String a l) s).
Proof.
  intros Hd Hs. induction s as [|c s IH].
  - reflexivity.
  - cbn [search numeric_run_before]. rewrite match_here_run by assumption.
    destruct (digits_before_here (String a l) (String c s)) as [[r rest]|]; auto.
Qed.

Lemma point_needs_digit {R : Type} (v : string) (g : option string)
  (k : string -> option string -> option R) :
  any isdigit v = false ->
  run (Seq (Opt is_point) (Plus isdigit)) v g k = None.
Proof.
  intros Hv.
  change (run (Opt is_point) v g
            (fun s' g' => run (Plus isdigit) s' g' k) = None).
  destruct v as [|d v].
  - reflexivity.
  - cbn [run]. fold (run (Plus isdigit) v g k).
    fold (run (Plus isdigit) (String d v) g k).
    rewrite (plus_needs_digit (String d v)) by assumption.
    apply any_tail in Hv as [_ Hv].
    rewrite (plus_needs_digit v) by assumption.
    now destruct (is_point d).
Qed.

Lemma number_tail_needs_digit {R : Type} (u : string) (g : option string)
  (k : string -> option string -> option R) :
  any isdigit u = false ->
  run (Seq (Star isdigit) (Seq (Opt is_point) (Plus isdigit))) u g k = None.
Proof.
  intros Hu.
  change (star isdigit
            (fun s' => run (Seq (Opt is_point) (Plus isdigit)) s' g k) u
          = None).
  rewrite star_stops by now apply no_digit_stops.
  now apply point_needs_digit.
Qed.

Lemma number_needs_digit (t : string) :
  any isdigit t = false -> match_here re_number t = None.
Proof.
  intros Ht. unfold match_here, re_number.
  set (k := fun s' g => Some (MatchObject (consumed t s') g s')).
  set (tl := Seq (Star isdigit) (Seq (Opt is_point) (Plus isdigit))).
  change (run (Opt is_sign) t None (fun s' g' => run tl s' g' k) = None).
  destruct t as [|c t].
  - apply (number_tail_needs_digit "" None k Ht).
  - cbn [run]. fold (run tl t None k). fold (run tl (String c t) None k).
    unfold tl. rewrite (number_tail_needs_digit (String c t)) by assumption.
    apply any_tail in Ht as [_ Ht].
    rewrite (number_tail_needs_digit t) by assumption.
    now destruct (is_sign c).
Qed.

Lemma run_needs_digit (marker t : string) :
  any isdigit t = false -> digits_before_here marker t = None.
Proof.
  intros Ht. unfold digits_before_here.
  destruct t as [|c t]; [reflexivity|].
  apply any_tail in Ht as [Hc _]. cbn [take_while]. now rewrite Hc.
Qed.

Lemma numeric_run_needs_digit (marker t : string) :
  any isdigit t = false -> numeric_run_before marker t = None.
Proof.
  induction t as [|c t IH]; intros Ht; cbn [numeric_run_before];
    rewrite run_needs_digit by assumption; auto.
  apply any_tail in Ht as [_ Ht]. auto.
Qed.

Lemma clean_value_try_duration (val : string) :
  contains "mn" val = true -> contains "s" val = true ->
  clean_value_try val =
  match numeric_run_before "mn" val with
  | None => Raise AttributeError
  | Some g1 =>
      mins <- py_int g1 ;;
      match numeric_run_before "s" val with
      | None => Raise AttributeError
      | Some g2 => secs <- py_int g2 ;; Ok (PInt (mins * 60 + secs))
      end
  end.
Proof.
  intros Hmn Hs. unfold clean_value_try. rewrite Hmn, Hs. cbn [andb].
  pose proof (search_run "m" "n" val eq_refl eq_refl) as H1.
  pose proof (search_run "s" "" val eq_refl eq_refl) as H2.
  fold re_mins in H1. fold re_secs in H2.
  destruct (search re_mins val) as [m1|];
    destruct (numeric_run_before "mn" val) as [g1|];
    try discriminate H1; [|reflexivity].
  injection H1 as H1. cbn [attribute_of bind]. unfold int_group1 at 1.
  rewrite H1. destruct (py_int g1) as [mins|e]; [|reflexivity].
  cbn [bind].
  destruct (search re_secs val) as [m2|];
    destruct (numeric_run_before "s" val) as [g2|];
    try discriminate H2; [|reflexivity].
  injection H2 as H2. cbn [attribute_of bind]. unfold int_group1.
  now rewrite H2.
Qed.

(** A run of digits, optional space and the marker: the run is found. *)
Lemma numeric_run_here (a : ascii) (l d w rest : string) :
  isdigit a = false -> isspace a = false ->
  all isdigit d = true -> d <> "" -> all isspace w = true ->
  numeric_run_before (String a l) (d ++ w ++ String a l ++ rest) = Some d.
Proof.
  intros Ha1 Ha2 Hd Hne Hw.
  assert (H : digits_before_here (String a l) (d ++ w ++ String a l ++ rest)
              = Some (d, rest)).
  { unfold digits_before_here.
    assert (Hst : stops isdigit (w ++ String a l ++ rest))
      by (apply (stops_app isdigit isspace); auto using space_not_digit).
    rewrite take_while_app by assumption.
    destruct d as [|c d]; [contradiction|].
    rewrite lstrip_all_app by assumption.
    rewrite lstrip_all_app by (simpl; auto).
    rewrite startswith_app. now rewrite drop_app. }
  destruct (d ++ w ++ String a l ++ rest); cbn [numeric_run_before];
    now rewrite H.
Qed.

(** A run of digits that the marker does not follow is passed over. *)
Lemma numeric_run_skip_digits (marker d r : string) :
  all isdigit d = true -> stops isdigit r ->
  startswith marker (lstrip_by isspace r) = false ->
  numeric_run_before marker (d ++ r) = numeric_run_before marker r.
Proof.
  intros Hd Hr Hm. induction d as [|c d IH]; [reflexivity|].
  simpl in Hd. apply andb_true_iff in Hd as [Hc Hd].
  cbn [append numeric_run_before].
  replace (digits_before_here marker (String c (d ++ r))) with
    (@None (string * string)); auto.
  unfold digits_before_here. cbn [take_while lstrip_by]. rewrite Hc.
  now rewrite lstrip_all_app, Hm.
Qed.

(** Characters that are not digits are passed over. *)
Lemma numeric_run_skip (marker w r : string) :
  any isdigit w = false ->
  numeric_run_before marker (w ++ r) = numeric_run_before marker r.
Proof.
  induction w as [|c w IH]; intros Hw; [reflexivity|].
  apply any_tail in Hw as [Hc Hw].
  cbn [append numeric_run_before].
  replace (digits_before_here marker (String c (w ++ r))) with
    (@None (string * string)); auto.
  unfold digits_before_here. cbn [take_while]. now rewrite Hc.
Qed.

Lemma digit_head_not_sentinel (c : ascii) (s : string) :
  isdigit c = true -> mem (String c s) ["unknown"; "-"; ""] = false.
Proof.
  intros H.
  destruct c as [[|] [|] [|] [|] [|] [|] [|] [|]];
    vm_compute in H; try discriminate H; reflexivity.
Qed.

Lemma py_int_digits (d : string) :
  all isdigit d = true -> d <> "" ->
  String.length d <= int_max_str_digits ->
  py_int d = Ok (int_digits 0 d).
Proof.
  intros Hd Hne Hlen. unfold py_int. rewrite Hd.
  apply Nat.leb_le in Hlen. rewrite Hlen.
  destruct d; [contradiction|reflexivity].
Qed.

Lemma py_int_too_long (d : string) :
  int_max_str_digits < String.length d -> py_int d = Raise ValueError.
Proof.
  intros Hlen. unfold py_int. apply Nat.leb_gt in Hlen. rewrite Hlen.
  now destruct (negb (String.eqb d "") && all isdigit d).
Qed.

Lemma duration_value (w0 dN w1 mn w2 dM w3 s w4 : string) :
  all isspace w0 = true -> all isspace w1 = true -> all isspace w2 = true ->
  all isspace w3 = true -> all isspace w4 = true ->
  all isdigit dN = true -> dN <> "" ->
  all isdigit dM = true -> dM <> "" ->
  lower mn = "mn" -> lower s = "s" ->
  clean_value (w0 ++ dN ++ w1 ++ mn ++ w2 ++ dM ++ w3 ++ s ++ w4)
  = if (String.length dN <=? int_max_str_digits)%nat
       && (String.length dM <=? int_max_str_digits)%nat
    then PInt (int_digits 0 dN * 60 + int_digits 0 dM)
    else PStr (lower (strip (w0 ++ dN ++ w1 ++ mn ++ w2 ++ dM ++ w3
                               ++ s ++ w4))).
Proof.
  intros H0 H1 H2 H3 H4 HN HNne HM HMne Hmn Hs.
  apply lower_single in Hs as (c & -> & Hc).
  pose proof (lower_s_not_space c Hc) as Hcs.
  set (val := dN ++ w1 ++ "mn" ++ w2 ++ dM ++ w3 ++ "s").
  assert (Hval : lower (strip (w0 ++ dN ++ w1 ++ mn ++ w2 ++ dM ++ w3
                                  ++ String c "" ++ w4)) = val).
  { unfold strip, strip_by.
    rewrite lstrip_all_app; auto.
    2:{ destruct dN as [|d dN]; [contradiction|]. simpl in HN |- *.
        apply andb_true_iff in HN as [Hd _]. now apply digit_not_space. }
    cbn [append]. rewrite <- !app_assoc.
    rewrite rstrip_end by assumption.
    rewrite !lower_app. cbn [lower]. rewrite Hc, Hmn.
    rewrite (lower_all_digit dN), (lower_all_digit dM),
      (lower_all_space w1), (lower_all_space w2), (lower_all_space w3)
      by assumption.
    unfold val. now rewrite !app_assoc. }
  unfold clean_value. rewrite Hval.
  assert (Hsent : mem val ["unknown"; "-"; ""] = false).
  { unfold val. destruct dN as [|d dN]; [contradiction|].
    simpl in HN. apply andb_true_iff in HN as [Hd _].
    now apply digit_head_not_sentinel. }
  rewrite Hsent.
  rewrite clean_value_try_duration.
  2:{ unfold val. rewrite <- app_assoc. apply contains_app. }
  2:{ unfold val. rewrite <- !app_assoc. apply contains_end. }
  assert (Hr1 : numeric_run_before "mn" val = Some dN)
    by (now apply (numeric_run_here "m" "n")).
  assert (Hr2 : numeric_run_before "s" val = Some dM).
  { unfold val.
    rewrite numeric_run_skip_digits; auto.
    - rewrite <- app_assoc, <- (app_assoc _ w2).
      rewrite numeric_run_skip.
      + rewrite <- (app_nil_r "s").
        now apply (numeric_run_here "s" "").
      + rewrite !any_app, (all_space_no_digit w1), (all_space_no_digit w2)
          by assumption.
        reflexivity.
    - apply (stops_app isdigit isspace); auto using space_not_digit.
    - now rewrite lstrip_all_app. }
  rewrite Hr1, Hr2.
  destruct (Nat.leb_spec (String.length dN) int_max_str_digits) as [LN|LN].
  - rewrite (py_int_digits dN) by assumption. cbn [bind andb].
    destruct (Nat.leb_spec (String.length dM) int_max_str_digits) as [LM|LM].
    + now rewrite (py_int_digits dM) by assumption.
    + now rewrite (py_int_too_long dM) by assumption.
  - now rewrite (py_int_too_long dN) by assumption.
Qed.

(** A value with the marker [mn] is none of the words of [float], with or
    without percent signs. *)
Lemma minutes_not_float_word (val : string) :
  contains "mn" val = true ->
  float_word (strip (replace "%" "" val)) = false.
Proof.
  intros Hmn. apply contains_head in Hmn.
  destruct (float_word _) eqn:Ew; [|reflexivity].
  apply (float_word_lacks (Ascii.eqb "m") _ eq_refl eq_refl lower_m
           eq_refl eq_refl) in Ew.
  unfold strip in Ew.
  rewrite any_strip_keep in Ew by apply m_not_space.
  rewrite any_replace_percent in Ew by reflexivity.
  congruence.
Qed.

Lemma sentinel_has_no_minutes (val : string) :
  contains "mn" val = true -> mem val ["unknown"; "-"; ""] = false.
Proof.
  intros H. destruct (mem val _) eqn:E; [|reflexivity].
  apply mem_In in E. simpl in E.
  destruct E as [E|[E|[E|[]]]]; subst val; discriminate H.
Qed.

Lemma number_at_digit (c : ascii) (s : string) :
  isdigit c = true -> match_here re_number (String c s) <> None.
Proof.
  intros Hc. unfold match_here, re_number.
  set (k := fun s' g => Some (MatchObject (consumed (String c s) s') g s')).
  assert (Hplus : forall g, run (Plus isdigit) (String c s) g k <> None).
  { intros g. cbn [run]. rewrite Hc. apply star_total. intros t. discriminate. }
  assert (Hpt : forall g,
    run (Seq (Opt is_point) (Plus isdigit)) (String c s) g k <> None).
  { intros g.
    change (run (Opt is_point) (String c s) g
              (fun s' g' => run (Plus isdigit) s' g' k) <> None).
    cbn [run]. fold (run (Plus isdigit) s g k).
    fold (run (Plus isdigit) (String c s) g k).
    destruct (is_point c); [|apply Hplus].
    destruct (run (Plus isdigit) s g k); [discriminate|apply Hplus]. }
  assert (Htl : forall g,
    run (Seq (Star isdigit) (Seq (Opt is_point) (Plus isdigit)))
        (String c s) g k <> None).
  { intros g.
    change (star isdigit
              (fun s' => run (Seq (Opt is_point) (Plus isdigit)) s' g k)
              (String c s) <> None).
    apply star_fallback, Hpt. }
  set (tl := Seq (Star isdigit) (Seq (Opt is_point) (Plus isdigit))) in *.
  change (run (Opt is_sign) (String c s) None
            (fun s' g' => run tl s' g' k) <> None).
  cbn [run]. fold (run tl s None k). fold (run tl (String c s) None k).
  destruct (is_sign c); [|apply Htl].
  destruct (run tl s None k); [discriminate|apply Htl].
Qed.

(** The generic pattern finds a numeral exactly in the texts that have a
    decimal digit. *)
Lemma number_iff_digit (s : string) :
  search re_number s = None <-> any isdigit s = false.
Proof.
  split; [|apply search_needs_digit, number_needs_digit].
  induction s as [|c s IH]; [reflexivity|].
  cbn [search any]. intros H.
  destruct (isdigit c) eqn:Hc.
  - pose proof (number_at_digit c s Hc) as Hm.
    destruct (match_here re_number (String c s)); [discriminate|contradiction].
  - destruct (match_here re_number (String c s)); [discriminate|]. auto.
Qed.



Lemma clean_value_without_digit (raw : string) :
  let val := lower (strip raw) in
  let arg := strip (replace "%" "" val) in
  mem val ["unknown"; "-"; ""] = false ->
  any isdigit raw = false ->
  clean_value raw =
  if contains "%" val && float_word arg then PFloat arg else PStr val.
Proof.
  intros val arg Hsent Hraw.
  assert (Hval : any isdigit val = false).
  { unfold val. rewrite any_lower_digit. now apply any_strip. }
  unfold clean_value. fold val. rewrite Hsent.
  destruct (contains "mn" val && contains "s" val) eqn:Emn.
  - apply andb_true_iff in Emn as [Hmn Hs].
    rewrite clean_value_try_duration by assumption.
    rewrite numeric_run_needs_digit by assumption.
    unfold arg. rewrite minutes_not_float_word by assumption.
    now rewrite andb_false_r.
  - unfold clean_value_try. rewrite Emn.
    destruct (contains "%" val) eqn:Ep; cbn [andb].
    + fold arg. unfold py_float.
      assert (Harg : any isdigit arg = false).
      { unfold arg. apply any_strip.
        now rewrite any_replace_percent. }
      unfold arg in *. rewrite float_accepts_without_digit by assumption.
      now destruct (float_word _).
    + rewrite search_needs_digit; auto using number_needs_digit.
Qed.

End ServerFacts.

(* ------------------------------------------------------------------ *)
(** * The properties of the specification *)

Import PyStr Spec PyStrFacts Re ReFacts Py PyFacts Soup HtmlParser.
Import Server ServerFacts Examples.

(** ** C1: a table without a title *)

Section Claims.
Variable BeautifulSoup : string -> node.

Lemma table_step_untitled (fmt : string) (acc : dict pyval) (frag : string) :
  find "b" (BeautifulSoup frag) = None ->
  table_step BeautifulSoup fmt acc frag = Raise AttributeError.
Proof. intros H. unfold table_step. now rewrite H. Qed.

Lemma table_step_outcome (fmt : string) (acc : dict pyval) (frag : string) :
  table_step BeautifulSoup fmt acc frag = Raise AttributeError
  \/ exists d, table_step BeautifulSoup fmt acc frag = Ok d.
Proof.
  unfold table_step. destruct (find "b" (BeautifulSoup frag)); simpl; eauto.
Qed.

Lemma tables_loop_untitled (fmt : string) (tables : list string)
  (acc : dict pyval) :
  (exists frag, In frag tables /\ find "b" (BeautifulSoup frag) = None) ->
  tables_loop BeautifulSoup fmt tables acc = Raise AttributeError.
Proof.
  revert acc; induction tables as [|t tables IH]; intros acc (frag & Hin & Hf).
  - destruct Hin.
  - cbn [tables_loop].
    destruct (table_step_outcome fmt acc t) as [->|[d Hd]]; [reflexivity|].
    rewrite Hd. cbn [bind]. apply IH.
    destruct Hin as [->|Hin]; [|eauto].
    rewrite table_step_untitled in Hd by assumption. discriminate.
Qed.

(** C1 (as the code has it): when the payload holds a table fragment whose
    tree has no [b] element, [soup.find("b")] is [None], the attribute access
    raises [AttributeError], nothing catches it and the view ends with that
    exception: no table is skipped and no document is returned. *)
Theorem untitled_table_aborts (cfg : config) (req : request) (w : world)
  (js_content : string) :
  device w (List.length (calls w)) (outbound_call cfg) = Fetched js_content ->
  (exists frag, In frag (findall re_table js_content)
                /\ find "b" (BeautifulSoup frag) = None) ->
  fst (get_ups_data BeautifulSoup cfg req w) = Raised AttributeError.
Proof.
  intros Hfetch Hex. unfold get_ups_data, requests_get. rewrite Hfetch.
  now rewrite tables_loop_untitled.
Qed.

End Claims.

Lemma untitled_table_aborts_witness :
  device (serving two_tables) 0 (outbound_call open_config) = Fetched two_tables
  /\ (exists frag, In frag (findall re_table two_tables)
                   /\ find "b" (html_parser frag) = None)
  /\ fst (get_ups_data html_parser open_config plain_request
            (serving two_tables)) = Raised AttributeError.
Proof.
  assert (H1 : device (serving two_tables) 0 (outbound_call open_config)
               = Fetched two_tables) by reflexivity.
  assert (H2 : exists frag, In frag (findall re_table two_tables)
                            /\ find "b" (html_parser frag) = None).
  { exists untitled_table. split; [vm_compute; auto|reflexivity]. }
  split; [exact H1|]. split; [exact H2|].
  exact (untitled_table_aborts html_parser open_config plain_request
           (serving two_tables) two_tables H1 H2).
Defined.

(** C1 fails as stated: with an untitled table followed by the table
    [Battery], the view raises instead of returning a document built from
    the second table. *)
Lemma untitled_table_not_skipped :
  let out := fst (get_ups_data html_parser open_config plain_request
                    (serving two_tables)) in
  findall re_table two_tables = [untitled_table; battery_table]
  /\ find "b" (html_parser untitled_table) = None
  /\ out = Raised AttributeError
  /\ forall body status, out <> Returned body status.
Proof.
  cbv zeta. repeat split; try (vm_compute; reflexivity).
  intros body status. vm_compute. discriminate.
Qed.

(** ** C2, C10: the gate *)

(** C2 (as the code has it): without a configured secret every request
    reaches the view; with a non-empty secret [S] the request reaches the view
    when the [Authorization] header with every occurrence of [Bearer ]
    removed equals [S] or the [api_key] parameter equals [S], and is aborted
    with 401 otherwise. *)
Theorem require_api_key_decides (cfg : config) (f : view) (req : request)
  (w : world) :
  SERVER_API_KEY cfg <> Some "" ->
  match SERVER_API_KEY cfg with
  | None => require_api_key cfg f req w = f req w
  | Some secret =>
      let header := headers_get "Authorization" "" (headers req) in
      let query := args_get "api_key" (args req) in
      (replace "Bearer " "" header = secret \/ query = Some secret ->
       require_api_key cfg f req w = f req w)
      /\ (~ (replace "Bearer " "" header = secret \/ query = Some secret) ->
          require_api_key cfg f req w
          = (Aborted 401 "Invalid or missing API key", w))
  end.
Proof.
  intros Hne. unfold require_api_key.
  destruct (SERVER_API_KEY cfg) as [secret|]; [|reflexivity].
  cbv zeta. cbn [truthy opt_eqb].
  assert (HS : String.eqb secret "" = false).
  { apply String.eqb_neq. intros ->. now apply Hne. }
  rewrite HS. cbn [negb andb].
  set (header := replace "Bearer " "" _).
  set (query := args_get "api_key" (args req)).
  split.
  - intros [H|H].
    + apply String.eqb_eq in H. now rewrite H.
    + rewrite H. cbn [opt_eqb]. rewrite String.eqb_refl.
      now rewrite andb_false_r.
  - intros H.
    destruct (String.eqb header secret) eqn:E1.
    { apply String.eqb_eq in E1. tauto. }
    destruct query as [q|]; cbn [opt_eqb negb andb]; [|reflexivity].
    destruct (String.eqb q secret) eqn:E2; [|reflexivity].
    apply String.eqb_eq in E2. subst q. tauto.
Qed.

Lemma require_api_key_decides_witness :
  SERVER_API_KEY keyed_config <> Some ""
  /\ require_api_key keyed_config ok_view
       (Request [("Authorization", "Bearer S")] []) (serving "")
     = ok_view (Request [("Authorization", "Bearer S")] []) (serving "")
  /\ require_api_key keyed_config ok_view
       (Request [("Authorization", "Bearer T")] [("api_key", "t")])
       (serving "")
     = (Aborted 401 "Invalid or missing API key", serving "").
Proof.
  assert (H : SERVER_API_KEY keyed_config <> Some "") by discriminate.
  split; [exact H|]. split.
  - apply (require_api_key_decides keyed_config ok_view
             (Request [("Authorization", "Bearer S")] []) (serving "") H).
    left; reflexivity.
  - apply (require_api_key_decides keyed_config ok_view
             (Request [("Authorization", "Bearer T")] [("api_key", "t")])
             (serving "") H).
    intros [E|E]; discriminate E.
Defined.

(** C2 fails as stated: with the secret [S], the header [Bearer Bearer S]
    without its leading prefix is [Bearer S], not the secret, and there is no
    [api_key]; the request is let through all the same. *)
Lemma bearer_removed_everywhere :
  let req := Request [("Authorization", "Bearer Bearer S")] [] in
  strip_bearer_prefix (headers_get "Authorization" "" (headers req)) <> "S"
  /\ args_get "api_key" (args req) <> Some "S"
  /\ require_api_key keyed_config ok_view req (serving "")
     = ok_view req (serving "")
  /\ require_api_key keyed_config ok_view req (serving "")
     <> (Aborted 401 "Invalid or missing API key", serving "").
Proof. cbv zeta. repeat split; vm_compute; discriminate. Qed.

(** C10: an empty secret is the same as no secret: every request reaches
    the view, whatever its header and query. *)
Theorem empty_secret_is_open (ip user password : option string) (f : view)
  (req : request) (w : world) :
  require_api_key (Config ip user password (Some "")) f req w = f req w
  /\ require_api_key (Config ip user password (Some "")) f req w
     = require_api_key (Config ip user password None) f req w.
Proof. split; reflexivity. Qed.

(** ** C9: the fetch fails *)

(** C9: when the outbound call raises, the view answers 500 with the body
    [{"error": str(e)}] and nothing else in it, and has made exactly one
    outbound call. *)
Theorem fetch_failure_is_500 (BeautifulSoup : string -> node) (cfg : config)
  (req : request) (w : world) (message : string) :
  device w (List.length (calls w)) (outbound_call cfg) = FetchRaised message ->
  get_ups_data BeautifulSoup cfg req w
  = (Returned (PDict [("error", PStr message)]) 500,
     World (device w) (calls w ++ [outbound_call cfg]) (utcnow w)).
Proof.
  intros H. unfold get_ups_data, requests_get. now rewrite H.
Qed.

Lemma fetch_failure_is_500_witness :
  device unreachable 0 (outbound_call keyed_config)
  = FetchRaised "Connection refused"
  /\ get_ups_data html_parser keyed_config raw_request unreachable
     = (Returned (PDict [("error", PStr "Connection refused")]) 500,
        World (device unreachable) [outbound_call keyed_config]
              (utcnow unreachable)).
Proof.
  split; [reflexivity|].
  exact (fetch_failure_is_500 html_parser keyed_config raw_request
           unreachable "Connection refused" eq_refl).
Defined.

(** ** C8: sentinels *)

(** C8: an input whose trimmed, lower-case form is [unknown], [-] or empty
    is normalized to [None], before any other rule is looked at. *)
Theorem clean_value_sentinel (raw : string) :
  mem (lower (strip raw)) ["unknown"; "-"; ""] = true ->
  clean_value raw = PNone.
Proof. intros H. unfold clean_value. now rewrite H. Qed.

Lemma clean_value_sentinel_witness :
  mem (lower (strip "  UnKnown ")) ["unknown"; "-"; ""] = true
  /\ clean_value "  UnKnown " = PNone.
Proof.
  split; [reflexivity|].
  exact (clean_value_sentinel "  UnKnown " eq_refl).
Defined.

(** ** C3: duplicate labels *)

Lemma section_data_rows (fmt : string) (rows : list node) (d : dict pyval) :
  fold_left (row_step fmt) rows d
  = fold_left
      (fun acc kv =>
         dict_set (fst kv)
           (if String.eqb fmt "raw" then clean_value (snd kv)
            else PStr (snd kv)) acc)
      (qualifying_rows rows) d.
Proof.
  revert d; induction rows as [|row rows IH]; intros d; [reflexivity|].
  cbn [fold_left qualifying_rows flat_map]. rewrite fold_left_app, <- IH.
  f_equal. unfold row_step.
  destruct (find_all "td" None row) as [|c0 [|c1 [|c2 cols]]]; reflexivity.
Qed.

(** C3 (as the code has it): when the qualifying rows of a table carry the
    labels [A, B, A], the section holds the value of the second [A] only, and
    its fields are in the order [A, B]: a label written again keeps the place
    of its first occurrence. *)
Theorem duplicate_label_keeps_first_place (fmt : string) (soup : node)
  (A B x y z : string) :
  A <> B ->
  qualifying_rows (find_all "tr" (Some "popupData") soup)
  = [(A, x); (B, y); (A, z)] ->
  section_data fmt soup
  = [(A, if String.eqb fmt "raw" then clean_value z else PStr z);
     (B, if String.eqb fmt "raw" then clean_value y else PStr y)].
Proof.
  intros Hne Hrows. unfold section_data.
  rewrite section_data_rows, Hrows. cbn [fold_left fst snd dict_set].
  assert (E : String.eqb A B = false) by now apply String.eqb_neq.
  rewrite E. cbn [dict_set]. now rewrite String.eqb_refl.
Qed.

Lemma duplicate_label_keeps_first_place_witness :
  "A" <> "B"
  /\ qualifying_rows
       (find_all "tr" (Some "popupData") (html_parser duplicate_table))
     = [("A", "1"); ("B", "2"); ("A", "3")]
  /\ section_data "json" (html_parser duplicate_table)
     = [("A", PStr "3"); ("B", PStr "2")].
Proof.
  assert (H1 : "A" <> "B") by discriminate.
  split; [exact H1|]. split; [reflexivity|].
  exact (duplicate_label_keeps_first_place "json"
           (html_parser duplicate_table) "A" "B" "1" "2" "3" H1 eq_refl).
Defined.

(** C3 fails as stated: for the rows [A, B, A] the fields come out in the
    order [A, B], not [B, A]. *)
Lemma duplicate_label_order :
  let data := section_data "json" (html_parser duplicate_table) in
  dict_get "A" data = Some (PStr "3")
  /\ keys data = ["A"; "B"]
  /\ keys data <> ["B"; "A"].
Proof. cbv zeta. repeat split; vm_compute; discriminate. Qed.

(** ** C7: locating the tables *)

(** C7 (as the code has it): [findall] returns, from left to right and with
    no overlap, every fragment that starts at a [label=<TABLE] in capital
    letters and runs up to the first [</TABLE>] in capital letters after it,
    line breaks included; the scan goes on after the fragment. *)
Theorem findall_tables (js_content : string) :
  findall re_table js_content =
  match first_table js_content with
  | None => []
  | Some (fragment, rest) => fragment :: findall re_table rest
  end.
Proof.
  unfold findall, first_table. rewrite finditer_tables.
  destruct (partition "label=<TABLE" js_content) as [[a t]|]; [|reflexivity].
  destruct (partition "</TABLE>" t) as [[body rest]|]; reflexivity.
Qed.

(** C7 fails as stated: a table written in small letters is not found. *)
Lemma lower_case_table_not_found :
  findall re_table "x='label=<table><b>Battery</b></table>';" = []
  /\ findall re_table "x='label=<TABLE><b>Battery</b></TABLE>';"
     = ["<TABLE><b>Battery</b></TABLE>"].
Proof. split; reflexivity. Qed.

(** ** C5, C6: durations *)

(** C5 (as the code has it): when the value has both markers and no run of
    digits stands before one of them, the duration rule raises inside the
    [try] and [clean_value] returns the trimmed, lower-case text; the generic
    search is not tried. *)
Theorem duration_without_run_is_text (raw : string) :
  contains "mn" (lower (strip raw)) = true ->
  contains "s" (lower (strip raw)) = true ->
  numeric_run_before "mn" (lower (strip raw)) = None
  \/ numeric_run_before "s" (lower (strip raw)) = None ->
  clean_value raw = PStr (lower (strip raw)).
Proof.
  intros Hmn Hs Hrun. unfold clean_value.
  rewrite sentinel_has_no_minutes by assumption.
  rewrite clean_value_try_duration by assumption.
  destruct (numeric_run_before "mn" (lower (strip raw))) as [g1|];
    [|reflexivity].
  destruct Hrun as [Hrun|Hrun]; [discriminate|]. rewrite Hrun.
  now destruct (py_int g1).
Qed.

Lemma duration_without_run_is_text_witness :
  contains "mn" (lower (strip " MN 30 s")) = true
  /\ contains "s" (lower (strip " MN 30 s")) = true
  /\ (numeric_run_before "mn" (lower (strip " MN 30 s")) = None
      \/ numeric_run_before "s" (lower (strip " MN 30 s")) = None)
  /\ clean_value " MN 30 s" = PStr "mn 30 s".
Proof.
  assert (H3 : numeric_run_before "mn" (lower (strip " MN 30 s")) = None
               \/ numeric_run_before "s" (lower (strip " MN 30 s")) = None)
    by (left; reflexivity).
  split; [reflexivity|]. split; [reflexivity|]. split; [exact H3|].
  exact (duration_without_run_is_text " MN 30 s" eq_refl eq_refl H3).
Defined.

(** C5 fails as stated: [mn 30 s] has both markers and no digits before
    [mn]; the generic search would find [30], but the value comes back as
    text. *)
Lemma no_fall_through_to_generic_search :
  option_map group0 (search re_number "mn 30 s") = Some "30"
  /\ clean_value "mn 30 s" = PStr "mn 30 s"
  /\ clean_value "mn 30 s" <> PFloat "30".
Proof. repeat split; vm_compute; discriminate. Qed.

(** C6 (as the code has it): a value of the form [<N> mn <M> s], in any
    letter case and with any amount of white space around and between its
    parts, is normalized to the integer [N * 60 + M] when the decimal texts
    of [N] and of [M] have no more digits than [int] converts; when one of
    them has more, [int] raises inside the [try] and the value comes back as
    its trimmed, lower-case text. *)
Theorem duration_in_seconds (N M : nat) (w0 w1 w2 w3 w4 mn s : string) :
  all isspace w0 = true -> all isspace w1 = true -> all isspace w2 = true ->
  all isspace w3 = true -> all isspace w4 = true ->
  lower mn = "mn" -> lower s = "s" ->
  clean_value (w0 ++ decimal N ++ w1 ++ mn ++ w2 ++ decimal M ++ w3 ++ s ++ w4)
  = if (String.length (decimal N) <=? int_max_str_digits)%nat
       && (String.length (decimal M) <=? int_max_str_digits)%nat
    then PInt (Z.of_nat N * 60 + Z.of_nat M)
    else PStr (lower (strip (w0 ++ decimal N ++ w1 ++ mn ++ w2 ++ decimal M
                               ++ w3 ++ s ++ w4))).
Proof.
  intros H0 H1 H2 H3 H4 Hmn Hs.
  rewrite duration_value;
    auto using all_digits_decimal, decimal_not_empty.
  now rewrite !int_digits_decimal.
Qed.

Lemma duration_in_seconds_witness :
  all isspace " " = true /\ all isspace "  " = true /\ all isspace "" = true
  /\ lower "Mn" = "mn" /\ lower "S" = "s"
  /\ clean_value (" " ++ decimal 40 ++ "  " ++ "Mn" ++ " " ++ decimal 22
                   ++ "" ++ "S" ++ "  ")
     = PInt (Z.of_nat 40 * 60 + Z.of_nat 22).
Proof.
  repeat (split; [reflexivity|]).
  exact (duration_in_seconds 40 22 " " "  " " " "" "  " "Mn" "S"
           eq_refl eq_refl eq_refl eq_refl eq_refl eq_refl eq_refl).
Defined.

(** C6 fails as stated: the number [N] written with 4301 nines has one
    digit more than [int] converts; [int] raises inside the [try] and the
    value [<N> mn 0 s] comes back as its text, not as [N * 60 + 0]. *)
Lemma long_duration_is_text :
  all isdigit long_run = true
  /\ String.length long_run = 4301
  /\ clean_value (long_run ++ " mn 0 s") = PStr (long_run ++ " mn 0 s")
  /\ clean_value (long_run ++ " mn 0 s")
     <> PInt (int_digits 0 long_run * 60 + 0).
Proof.
  assert (H : clean_value (long_run ++ " mn 0 s")
              = PStr (long_run ++ " mn 0 s")) by (vm_compute; reflexivity).
  split; [vm_compute; reflexivity|].
  split; [vm_compute; reflexivity|].
  split; [exact H|].
  rewrite H. discriminate.
Qed.

(** ** C4: values without a numeral *)

(** C4 (as the code has it): an input that is not a sentinel and in which
    the generic pattern finds no numeral is normalized to its trimmed,
    lower-case form, not to the input itself; the one exception is a value
    with a percent sign whose rest, the percent signs removed and trimmed
    again, is [inf], [infinity] or [nan] with an optional sign, which
    [float] accepts. *)
Theorem clean_value_without_numeral (raw : string) :
  mem (lower (strip raw)) ["unknown"; "-"; ""] = false ->
  search re_number (lower (strip raw)) = None ->
  clean_value raw =
  if contains "%" (lower (strip raw))
     && float_word (strip (replace "%" "" (lower (strip raw))))
  then PFloat (strip (replace "%" "" (lower (strip raw))))
  else PStr (lower (strip raw)).
Proof.
  intros Hsent Hnum. apply clean_value_without_digit; [assumption|].
  apply number_iff_digit in Hnum.
  rewrite any_lower_digit in Hnum. unfold strip in Hnum.
  now rewrite any_strip_keep in Hnum by apply digit_not_space.
Qed.

Lemma clean_value_without_numeral_witness :
  mem (lower (strip " On Line ")) ["unknown"; "-"; ""] = false
  /\ search re_number (lower (strip " On Line ")) = None
  /\ clean_value " On Line " = PStr "on line".
Proof.
  split; [reflexivity|]. split; [reflexivity|].
  exact (clean_value_without_numeral " On Line " eq_refl eq_refl).
Defined.

(** C4 fails as stated: [On Line] is no sentinel and has no numeral, and
    comes back in lower case, not unchanged. *)
Lemma clean_value_not_identity :
  mem (lower (strip "On Line")) ["unknown"; "-"; ""] = false
  /\ search re_number "On Line" = None
  /\ clean_value "On Line" = PStr "on line"
  /\ clean_value "On Line" <> PStr "On Line".
Proof. repeat split; vm_compute; discriminate. Qed.

(* ------------------------------------------------------------------ *)
(** * Further properties of the code *)

Import Main Notions Language.

(** ** Dictionaries, sections and the document *)

Module DictFacts.
Local Open Scope list_scope.

Section Dict.
Context {V : Type}.
Implicit Types (d : dict V) (k : string) (v : V).

Lemma dict_get_set_same d k v : dict_get k (dict_set k v d) = Some v.
Proof.
  induction d as [|[k' v'] d IH]; simpl.
  - now rewrite String.eqb_refl.
  - destruct (String.eqb k' k) eqn:E; simpl.
    + now rewrite String.eqb_refl.
    + now rewrite E.
Qed.

Lemma dict_get_set_other d k k' v :
  k' <> k -> dict_get k' (dict_set k v d) = dict_get k' d.
Proof.
  intros Hne. assert (E : String.eqb k k' = false)
    by (apply String.eqb_neq; congruence).
  induction d as [|[k0 v0] d IH]; simpl.
  - now rewrite E.
  - destruct (String.eqb k0 k) eqn:E0; simpl.
    + apply String.eqb_eq in E0; subst k0. now rewrite E.
    + now rewrite IH.
Qed.

Lemma mem_app (x : string) (l1 l2 : list string) :
  mem x (l1 ++ l2) = mem x l1 || mem x l2.
Proof. induction l1; simpl; auto. now rewrite IHl1, orb_assoc. Qed.

Lemma keys_dict_set d k v :
  keys (dict_set k v d) = if mem k (keys d) then keys d else keys d ++ [k].
Proof.
  unfold keys. induction d as [|[k' v'] d IH]; simpl; auto.
  rewrite (String.eqb_sym k k').
  destruct (String.eqb k' k) eqn:E; simpl.
  - apply String.eqb_eq in E. now subst.
  - rewrite IH. now destruct (mem k (map fst d)).
Qed.

Lemma first_occurrences_ext (s1 s2 l : list string) :
  (forall x, mem x s1 = mem x s2) ->
  first_occurrences s1 l = first_occurrences s2 l.
Proof.
  revert s1 s2; induction l as [|x l IH]; intros s1 s2 H; simpl; auto.
  rewrite <- H. destruct (mem x s1); [now apply IH|].
  f_equal. apply IH. intros y; simpl. now rewrite H.
Qed.

(** Setting pairs one after the other: the lookups and the order of the
    keys of the result. *)
Lemma dict_get_set_all {A : Type} (f : A -> V) (kvs : list (string * A)) d k :
  dict_get k
    (fold_left (fun acc kv => dict_set (fst kv) (f (snd kv)) acc) kvs d)
  = match last_value k kvs with
    | Some x => Some (f x)
    | None => dict_get k d
    end.
Proof.
  revert d; induction kvs as [|[k' x] kvs IH]; intros d; simpl; auto.
  rewrite IH. destruct (last_value k kvs); auto.
  destruct (String.eqb k' k) eqn:E.
  - apply String.eqb_eq in E; subst. apply dict_get_set_same.
  - apply dict_get_set_other. apply String.eqb_neq in E. congruence.
Qed.

Lemma keys_set_all {A : Type} (f : A -> V) (kvs : list (string * A)) d :
  keys (fold_left (fun acc kv => dict_set (fst kv) (f (snd kv)) acc) kvs d)
  = keys d ++ first_occurrences (keys d) (map fst kvs).
Proof.
  revert d; induction kvs as [|[k x] kvs IH]; intros d; simpl.
  - now rewrite List.app_nil_r.
  - rewrite IH, keys_dict_set.
    destruct (mem k (keys d)); auto.
    rewrite <- List.app_assoc. simpl. do 2 f_equal.
    apply first_occurrences_ext. intros y.
    rewrite mem_app. simpl. now rewrite orb_false_r, orb_comm.
Qed.

End Dict.

Lemma mem_true_In (x : string) (l : list string) : mem x l = true <-> In x l.
Proof.
  induction l as [|y l IH]; simpl; [split; [discriminate|tauto]|].
  rewrite orb_true_iff, String.eqb_eq, IH. split; intros [H|H]; auto.
Qed.

Lemma first_occurrences_fresh (seen l : list string) (x : string) :
  In x (first_occurrences seen l) -> In x l /\ ~ In x seen.
Proof.
  revert seen; induction l as [|y l IH]; intros seen; simpl; [tauto|].
  destruct (mem y seen) eqn:E.
  - intros H. apply IH in H. tauto.
  - intros [->|H].
    + split; auto. intros Hin. apply mem_true_In in Hin. congruence.
    + apply IH in H. simpl in H. tauto.
Qed.


Lemma first_occurrences_NoDup (seen l : list string) :
  NoDup (first_occurrences seen l).
Proof.
  revert seen; induction l as [|y l IH]; intros seen; simpl; [constructor|].
  destruct (mem y seen); auto.
  constructor; auto.
  intros H. apply first_occurrences_fresh in H. simpl in H. tauto.
Qed.

Lemma last_value_In {V : Type} (k : string) (kvs : list (string * V)) (v : V) :
  last_value k kvs = Some v -> In (k, v) kvs.
Proof.
  induction kvs as [|[k' v'] kvs IH]; simpl; [discriminate|].
  destruct (last_value k kvs).
  - intros [= <-]. auto.
  - destruct (String.eqb k' k) eqn:E; [|discriminate].
    apply String.eqb_eq in E. intros [= <-]. subst. auto.
Qed.

End DictFacts.

Import DictFacts.
Local Open Scope list_scope.



Lemma keys_set_all_NoDup {V A : Type} (f : A -> V) (kvs : list (string * A)) :
  NoDup (keys (fold_left (fun acc kv => dict_set (fst kv) (f (snd kv)) acc)
                 kvs [])).
Proof. rewrite keys_set_all. simpl. apply first_occurrences_NoDup. Qed.

Lemma section_data_set_all (fmt : string) (soup : node) :
  section_data fmt soup
  = fold_left (fun acc kv => dict_set (fst kv) (field_value fmt (snd kv)) acc)
      (table_rows soup) [].
Proof. unfold section_data. now rewrite section_data_rows. Qed.

(** X1: within a section a label is looked up as its last qualifying row
    says: the value is the cell text of that row, normalized under
    [format=raw]; a label no qualifying row carries is absent. *)
Theorem section_last_row_wins (fmt : string) (soup : node) (label : string) :
  dict_get label (section_data fmt soup)
  = option_map (field_value fmt) (last_value label (table_rows soup)).
Proof.
  rewrite section_data_set_all, dict_get_set_all.
  now destruct (last_value label (table_rows soup)).
Qed.

(** X2: the labels of a section are those of the qualifying rows, each once,
    in the order of their first occurrence. *)
Theorem section_labels_in_first_order (fmt : string) (soup : node) :
  keys (section_data fmt soup)
  = first_occurrences [] (map fst (table_rows soup))
  /\ NoDup (keys (section_data fmt soup)).
Proof.
  rewrite section_data_set_all. split.
  - now rewrite keys_set_all.
  - apply keys_set_all_NoDup.
Qed.

Section Document.
Variable BeautifulSoup : string -> node.



End Document.


(** ** Locating the tables, continued *)

Local Open Scope string_scope.

Lemma startswith_app_mono (p a b : string) :
  startswith p a = true -> startswith p (a ++ b) = true.
Proof.
  revert a; induction p as [|c p IH]; intros a; simpl; auto.
  destruct a as [|d a]; simpl; [discriminate|].
  intros H; apply andb_true_iff in H as [-> H]. simpl. auto.
Qed.

Lemma contains_app_l (p a b : string) :
  contains p a = true -> contains p (a ++ b) = true.
Proof.
  induction a as [|c a IH].
  - intros H. destruct p; [|discriminate H]. now destruct b.
  - cbn [contains append]. intros H.
    apply orb_true_iff in H as [H|H].
    + change (String c (a ++ b)) with (String c a ++ b).
      now rewrite startswith_app_mono.
    + rewrite IH by assumption. apply orb_true_r.
Qed.

Lemma contains_app_r (p a b : string) :
  contains p b = true -> contains p (a ++ b) = true.
Proof.
  intros H. induction a as [|c a IH]; auto.
  cbn [append contains]. rewrite IH. apply orb_true_r.
Qed.

(** The text before the first occurrence holds no occurrence. *)
Lemma partition_first (sep s a b : string) :
  sep <> "" -> partition sep s = Some (a, b) -> contains sep a = false.
Proof.
  intros Hsep. destruct sep as [|c0 sep]; [contradiction|].
  revert a; induction s as [|c s IH]; intros a.
  - simpl. discriminate.
  - cbn [partition].
    destruct (startswith (String c0 sep) (String c s)) eqn:E.
    + intros [= <- _]. reflexivity.
    + destruct (partition (String c0 sep) s) as [[a' b']|] eqn:P;
        [|discriminate].
      intros [= <- <-]. cbn [contains]. rewrite (IH a' eq_refl).
      rewrite orb_false_r.
      destruct (startswith (String c0 sep) (String c a')) eqn:E'; auto.
      apply partition_split in P. subst s.
      change (String c (a' ++ String c0 sep ++ b'))
        with (String c a' ++ String c0 sep ++ b') in E.
      now rewrite startswith_app_mono in E.
Qed.

Lemma finditer_fragments (n : nat) (text : string) :
  String.length text <= n ->
  Forall (fun m => exists body,
            group1 m = Some ("<TABLE" ++ body ++ "</TABLE>")
            /\ contains "</TABLE>" body = false
            /\ contains ("label=<TABLE" ++ body ++ "</TABLE>") text = true)
         (finditer re_table text 0).
Proof.
  revert text; induction n as [|n IH]; intros text Hn.
  - destruct text; [|simpl in Hn; lia]. vm_compute. constructor.
  - rewrite finditer_tables.
    destruct (partition "label=<TABLE" text) as [[a t]|] eqn:P1;
      [|constructor].
    destruct (partition "</TABLE>" t) as [[body rest]|] eqn:P2;
      [|constructor].
    pose proof (partition_first "</TABLE>" t body rest
                  ltac:(discriminate) P2) as Hfirst.
    apply partition_split in P1, P2. subst text t.
    constructor.
    + exists body. split; [reflexivity|]. split; [assumption|].
      replace (a ++ "label=<TABLE" ++ body ++ "</TABLE>" ++ rest)
        with (a ++ ("label=<TABLE" ++ body ++ "</TABLE>") ++ rest)
        by (now rewrite !app_assoc).
      apply contains_app.
    + eapply Forall_impl; [|apply IH].
      * intros m (b & Hg & Hb & Hc). exists b. repeat split; auto.
        replace (a ++ "label=<TABLE" ++ body ++ "</TABLE>" ++ rest)
          with ((a ++ "label=<TABLE" ++ body ++ "</TABLE>") ++ rest)
          by (now rewrite !app_assoc).
        now apply contains_app_r.
      * rewrite !length_app in Hn. simpl in Hn. lia.
Qed.

(** X4: every fragment [findall] returns starts with [<TABLE], ends with the
    first [</TABLE>] after it (there is none in between) and stands in the
    payload right after a [label=]. *)
Theorem fragments_are_whole_tables (js_content fragment : string) :
  In fragment (findall re_table js_content) ->
  exists body,
    fragment = "<TABLE" ++ body ++ "</TABLE>"
    /\ contains "</TABLE>" body = false
    /\ contains ("label=" ++ fragment) js_content = true.
Proof.
  unfold findall. intros H. apply in_map_iff in H as (m & Hm & Hin).
  pose proof (finditer_fragments _ js_content (le_n _)) as HF.
  rewrite Forall_forall in HF.
  destruct (HF m Hin) as (body & Hg & Hb & Hc).
  rewrite Hg in Hm. subst fragment. exists body. auto.
Qed.

Lemma fragments_are_whole_tables_witness :
  In battery_table (findall re_table two_tables)
  /\ exists body,
       battery_table = "<TABLE" ++ body ++ "</TABLE>"
       /\ contains "</TABLE>" body = false
       /\ contains ("label=" ++ battery_table) two_tables = true.
Proof.
  assert (H : In battery_table (findall re_table two_tables))
    by (vm_compute; auto).
  split; [exact H|].
  exact (fragments_are_whole_tables two_tables battery_table H).
Defined.

Lemma findall_nothing (js_content : string) :
  contains "label=<TABLE" js_content = false
  \/ contains "</TABLE>" js_content = false ->
  findall re_table js_content = [].
Proof.
  intros H. unfold findall. rewrite finditer_tables.
  destruct (partition "label=<TABLE" js_content) as [[a t]|] eqn:P1;
    [|reflexivity].
  destruct (partition "</TABLE>" t) as [[body rest]|] eqn:P2; [|reflexivity].
  exfalso. apply partition_split in P1, P2. subst.
  destruct H as [H|H].
  - now rewrite contains_app in H.
  - rewrite contains_app_r in H; [discriminate|].
    apply contains_app_r, contains_app.
Qed.

(** X5: a payload without [label=<TABLE] or without [</TABLE>] holds no
    fragment, and the view answers 200 with the time stamp alone. *)
Theorem no_table_only_timestamp (BeautifulSoup : string -> node)
  (cfg : config) (req : request) (w : world) (js_content : string) :
  device w (List.length (calls w)) (outbound_call cfg) = Fetched js_content ->
  contains "label=<TABLE" js_content = false
  \/ contains "</TABLE>" js_content = false ->
  fst (get_ups_data BeautifulSoup cfg req w)
  = Returned (PDict [("timestamp", PStr (utcnow w))]) 200.
Proof.
  intros Hfetch Hnone. unfold get_ups_data, requests_get.
  rewrite Hfetch, findall_nothing by assumption. reflexivity.
Qed.

Lemma no_table_only_timestamp_witness :
  device (serving "var x = 1;") 0 (outbound_call open_config)
  = Fetched "var x = 1;"
  /\ (contains "label=<TABLE" "var x = 1;" = false
      \/ contains "</TABLE>" "var x = 1;" = false)
  /\ fst (get_ups_data html_parser open_config raw_request
            (serving "var x = 1;"))
     = Returned (PDict [("timestamp", PStr "2025-05-15T20:00:00+00:00")]) 200.
Proof.
  assert (H : contains "label=<TABLE" "var x = 1;" = false
              \/ contains "</TABLE>" "var x = 1;" = false)
    by (left; reflexivity).
  split; [reflexivity|]. split; [exact H|].
  exact (no_table_only_timestamp html_parser open_config raw_request
           (serving "var x = 1;") "var x = 1;" eq_refl H).
Defined.

(** ** The gate and the outbound call *)

Lemma replace_scan_skip (old new s : string) (n : nat) :
  n <= String.length s ->
  replace_scan old new s n = replace_scan old new (drop n s) 0.
Proof.
  revert s; induction n as [|n IH]; intros s Hn; [reflexivity|].
  destruct s as [|c s]; simpl in Hn; [lia|].
  cbn [replace_scan drop]. apply IH. lia.
Qed.

Lemma replace_scan_here (c : ascii) (old new s : string) :
  replace_scan (String c old) new (String c old ++ s) 0
  = new ++ replace_scan (String c old) new s 0.
Proof.
  cbn [append]. cbn [replace_scan].
  change (String c (old ++ s)) with (String c old ++ s).
  rewrite startswith_app. cbn [String.length Nat.sub].
  rewrite Nat.sub_0_r.
  rewrite replace_scan_skip by (rewrite length_app; lia).
  now rewrite drop_app.
Qed.

Lemma replace_scan_absent (old new s : string) :
  contains old s = false -> replace_scan old new s 0 = s.
Proof.
  induction s as [|c s IH]; [reflexivity|].
  cbn [contains replace_scan]. intros H.
  apply orb_false_iff in H as [-> H]. now rewrite IH.
Qed.

(** Removing [old] from [old ++ s] gives [s] back when [s] holds no [old]. *)
Lemma replace_prefix (c : ascii) (old s : string) :
  contains (String c old) s = false ->
  replace (String c old) "" (String c old ++ s) = s.
Proof.
  intros H. unfold replace. rewrite replace_scan_here.
  now rewrite replace_scan_absent.
Qed.

Lemma header_values_none (name : string) (hs : list (string * string)) :
  (forall k v, In (k, v) hs -> lower k <> lower name) ->
  header_values name hs = [].
Proof.
  induction hs as [|[k v] hs IH]; intros H; [reflexivity|].
  cbn [header_values].
  destruct (String.eqb (lower k) (lower name)) eqn:E.
  - apply String.eqb_eq in E. exfalso. apply (H k v); [now left|exact E].
  - apply IH. intros k' v' Hin. apply (H k' v'). now right.
Qed.

(** X6: with the secret [S] configured, a request that has one
    [Authorization] header (the name in any letter case, the header anywhere
    among the others), with the value [Bearer S], reaches the view, provided
    [S] does not itself contain [Bearer ]. *)
Theorem bearer_header_is_accepted (cfg : config) (f : view) (w : world)
  (secret name : string) (earlier later query : list (string * string)) :
  SERVER_API_KEY cfg = Some secret ->
  contains "Bearer " secret = false ->
  lower name = "authorization" ->
  (forall k v, In (k, v) (earlier ++ later) -> lower k <> "authorization") ->
  require_api_key cfg f
    (Request (earlier ++ (name, "Bearer " ++ secret) :: later) query) w
  = f (Request (earlier ++ (name, "Bearer " ++ secret) :: later) query) w.
Proof.
  intros Hkey Hfree Hname Hsingle. unfold require_api_key. rewrite Hkey.
  cbn [headers]. unfold headers_get.
  assert (Hvalues : header_values "Authorization"
                      (earlier ++ (name, "Bearer " ++ secret) :: later)
                    = ["Bearer " ++ secret]).
  { induction earlier as [|[k v] earlier IH].
    - cbn [List.app header_values]. rewrite Hname.
      change (lower "Authorization") with "authorization".
      rewrite String.eqb_refl. f_equal.
      apply header_values_none. intros k v Hin.
      change (lower "Authorization") with "authorization".
      apply (Hsingle k v). exact Hin.
    - cbn [List.app header_values].
      change (lower "Authorization") with "authorization".
      destruct (String.eqb (lower k) "authorization") eqn:E.
      + apply String.eqb_eq in E. exfalso.
        apply (Hsingle k v); [now left|exact E].
      + apply IH. intros k' v' Hin. apply (Hsingle k' v'). now right. }
  rewrite Hvalues. cbn [String.concat].
  rewrite (replace_prefix "B" "earer " secret Hfree).
  cbn [opt_eqb]. rewrite String.eqb_refl. cbn [negb andb].
  now rewrite andb_false_r.
Qed.

Lemma bearer_header_is_accepted_witness :
  SERVER_API_KEY keyed_config = Some "S"
  /\ contains "Bearer " "S" = false
  /\ lower "AUTHORIZATION" = "authorization"
  /\ (forall k v, In (k, v) ([("Accept", "*/*")] ++ [("Host", "ups")]) ->
        lower k <> "authorization")
  /\ require_api_key keyed_config ok_view
       (Request ([("Accept", "*/*")]
                 ++ ("AUTHORIZATION", "Bearer " ++ "S") :: [("Host", "ups")])
          []) (serving "")
     = ok_view
         (Request ([("Accept", "*/*")]
                   ++ ("AUTHORIZATION", "Bearer " ++ "S") :: [("Host", "ups")])
            []) (serving "").
Proof.
  assert (H : forall k v,
             In (k, v) ([("Accept", "*/*")] ++ [("Host", "ups")]) ->
             lower k <> "authorization").
  { intros k v [E|[E|[]]]; injection E as <- _; vm_compute; discriminate. }
  repeat (split; [reflexivity|]). split; [exact H|].
  exact (bearer_header_is_accepted keyed_config ok_view (serving "") "S"
           "AUTHORIZATION" [("Accept", "*/*")] [("Host", "ups")] []
           eq_refl eq_refl eq_refl H).
Defined.

(** The single header is needed: sent twice, the header reaches the gate
    as one joined value, which is no secret even when its first line alone
    would pass. *)
Lemma repeated_header_is_refused :
  headers_get "Authorization" ""
    [("Authorization", "Bearer S"); ("Authorization", "Bearer T")]
  = "Bearer S, Bearer T"
  /\ require_api_key keyed_config ok_view
       (Request [("Authorization", "Bearer S"); ("Authorization", "Bearer T")]
          []) (serving "")
     = (Aborted 401 "Invalid or missing API key", serving "").
Proof. split; reflexivity. Qed.

(** X7: a request the gate rejects leaves the world as it was: no outbound
    call is made.  A request that passes makes exactly one outbound call, the
    one fixed by the configuration, whatever the request holds and however
    the view ends; the view itself never aborts. *)
Theorem route_calls_the_device_once (BeautifulSoup : string -> node)
  (cfg : config) (req : request) (w : world) :
  route BeautifulSoup cfg req w
  = (Aborted 401 "Invalid or missing API key", w)
  \/ (snd (route BeautifulSoup cfg req w)
      = World (device w) (calls w ++ [outbound_call cfg])%list (utcnow w)
      /\ forall code description,
           fst (route BeautifulSoup cfg req w) <> Aborted code description).
Proof.
  unfold route, require_api_key.
  match goal with |- context [if ?b then _ else _] => destruct b end;
    [now left|right].
  unfold get_ups_data, requests_get.
  destruct (device w (List.length (calls w)) (outbound_call cfg)).
  - destruct (tables_loop _ _ _ _); split; try reflexivity; discriminate.
  - split; [reflexivity|discriminate].
Qed.

(** ** [main] *)

Lemma dict_get_absent {V : Type} (k : string) (d : dict V) :
  ~ In k (keys d) -> dict_get k d = None.
Proof.
  unfold keys. induction d as [|[k' v] d IH]; simpl; auto.
  intros H. destruct (String.eqb k' k) eqn:E.
  - apply String.eqb_eq in E. tauto.
  - apply IH. tauto.
Qed.

(** X8: [main] never reaches [app.run]: the parser stores [--ups_password]
    under [password], so for every namespace that holds only declared
    attributes the access [args.ups_password] raises [AttributeError]; the
    password and the API key given to the module are left as they were. *)
Theorem main_never_serves (int_of_text : string -> exc Z) (args : namespace)
  (environ : string -> option string) (g : globals) :
  incl (keys args) (map dest parser) ->
  exists g',
    main int_of_text args environ g = MainRaised AttributeError g'
    /\ G_PASSWORD g' = G_PASSWORD g
    /\ G_SERVER_API_KEY g' = G_SERVER_API_KEY g.
Proof.
  intros Hincl.
  assert (Hpw : getattr args "ups_password" = Raise AttributeError).
  { unfold getattr. rewrite dict_get_absent; [reflexivity|].
    intros Hin. apply Hincl in Hin. vm_compute in Hin.
    repeat (destruct Hin as [Hin|Hin]; [discriminate Hin|]). exact Hin. }
  unfold main. rewrite Hpw.
  unfold getattr.
  destruct (dict_get "ups_ip" args); cbn [attribute_of]; [|eauto].
  destruct (dict_get "ups_username" args); cbn [attribute_of]; eauto.
Qed.

Lemma main_never_serves_witness :
  incl (keys defaults) (map dest parser)
  /\ exists g',
       main (fun _ => Raise ValueError) defaults (fun _ => None)
            (globals_of keyed_config)
       = MainRaised AttributeError g'
       /\ G_PASSWORD g' = G_PASSWORD (globals_of keyed_config)
       /\ G_SERVER_API_KEY g' = G_SERVER_API_KEY (globals_of keyed_config).
Proof.
  assert (H : incl (keys defaults) (map dest parser))
    by (intros k Hk; exact Hk).
  split; [exact H|].
  exact (main_never_serves (fun _ => Raise ValueError) defaults
           (fun _ => None) (globals_of keyed_config) H).
Defined.

(** ** [clean_value], continued *)

Lemma lower_char_space (c : ascii) : isspace (lower_char c) = isspace c.
Proof. by_cases_on c. Qed.

Lemma lower_char_twice (c : ascii) : lower_char (lower_char c) = lower_char c.
Proof. by_cases_on c. Qed.

Lemma lower_twice (s : string) : lower (lower s) = lower s.
Proof. induction s; simpl; auto. now rewrite lower_char_twice, IHs. Qed.

Lemma lstrip_lower (s : string) :
  lstrip_by isspace (lower s) = lower (lstrip_by isspace s).
Proof.
  induction s as [|c s IH]; simpl; auto.
  rewrite lower_char_space. now destruct (isspace c).
Qed.

Lemma rstrip_lower (s : string) :
  rstrip_by isspace (lower s) = lower (rstrip_by isspace s).
Proof.
  induction s as [|c s IH]; simpl; auto.
  rewrite IH, lower_char_space.
  destruct (rstrip_by isspace s); simpl; auto. now destruct (isspace c).
Qed.

Lemma strip_lower (s : string) : strip (lower s) = lower (strip s).
Proof. unfold strip, strip_by. now rewrite lstrip_lower, rstrip_lower. Qed.

Lemma normal_form_twice (s : string) :
  lower (strip (lower (strip s))) = lower (strip s).
Proof.
  rewrite strip_lower, lower_twice. unfold strip.
  now rewrite strip_strip by auto.
Qed.

(** X9: [clean_value] looks at the trimmed, lower-case form of its input
    only: that form is normalized to the same value as the input. *)
Theorem clean_value_of_normal_form (raw : string) :
  clean_value (lower (strip raw)) = clean_value raw.
Proof. unfold clean_value. now rewrite normal_form_twice. Qed.

Lemma clean_value_try_number (val : string) (v : pyval) :
  clean_value_try val = Ok v ->
  (exists z, v = PInt z) \/ (exists literal, v = PFloat literal).
Proof.
  unfold clean_value_try, int_group1, py_float.
  destruct (contains "mn" val && contains "s" val).
  - destruct (search re_mins val) as [m1|]; cbn [attribute_of bind];
      [|discriminate].
    destruct (group1 m1) as [g1|]; [|discriminate].
    destruct (py_int g1); cbn [bind]; [|discriminate].
    destruct (search re_secs val) as [m2|]; cbn [attribute_of bind];
      [|discriminate].
    destruct (group1 m2) as [g2|]; [|discriminate].
    destruct (py_int g2); cbn [bind]; [|discriminate].
    intros [= <-]; eauto.
  - destruct (contains "%" val).
    + destruct (float_accepts _); [|discriminate]. intros [= <-]; eauto.
    + destruct (search re_number val) as [m|]; cbn [attribute_of bind];
        [|discriminate].
      destruct (float_accepts _); [|discriminate]. intros [= <-]; eauto.
Qed.

(** X10: the result is [None] exactly for the three sentinels. *)
Theorem clean_value_none_iff_sentinel (raw : string) :
  clean_value raw = PNone
  <-> mem (lower (strip raw)) ["unknown"; "-"; ""] = true.
Proof.
  unfold clean_value. split.
  - destruct (mem _ _); [reflexivity|].
    destruct (clean_value_try _) as [v|e] eqn:E; [|discriminate].
    apply clean_value_try_number in E as [[z ->]|[l ->]]; discriminate.
  - now intros ->.
Qed.

(** X11: a text that [clean_value] returns is the trimmed, lower-case form of
    the input, and it is normalized to itself. *)
Theorem clean_value_text_is_fixed (raw text : string) :
  clean_value raw = PStr text ->
  text = lower (strip raw) /\ clean_value text = PStr text.
Proof.
  intros H.
  assert (Ht : text = lower (strip raw)).
  { unfold clean_value in H. destruct (mem _ _); [discriminate|].
    destruct (clean_value_try _) as [v|e] eqn:E.
    - apply clean_value_try_number in E as [[z ->]|[l ->]]; discriminate.
    - now injection H. }
  split; [exact Ht|]. subst text.
  unfold clean_value at 1. rewrite normal_form_twice.
  exact H.
Qed.

Lemma clean_value_text_is_fixed_witness :
  clean_value " On Battery " = PStr "on battery"
  /\ "on battery" = lower (strip " On Battery ")
  /\ clean_value "on battery" = PStr "on battery".
Proof.
  assert (H : clean_value " On Battery " = PStr "on battery") by reflexivity.
  split; [exact H|].
  exact (clean_value_text_is_fixed " On Battery " "on battery" H).
Defined.

Lemma digit_value_nonneg (c : ascii) :
  isdigit c = true -> (0 <= digit_value c)%Z.
Proof.
  unfold isdigit, between, digit_value. intros H.
  apply andb_true_iff in H as [H _]. apply Nat.leb_le in H.
  revert H. generalize (code c). intros n H. lia.
Qed.

Lemma int_digits_nonneg (s : string) (acc : Z) :
  all isdigit s = true -> (0 <= acc)%Z -> (0 <= int_digits acc s)%Z.
Proof.
  revert acc; induction s as [|c s IH]; intros acc Hs Hacc;
    cbn [int_digits]; auto.
  cbn [all] in Hs. apply andb_true_iff in Hs as [Hc Hs].
  apply IH; auto. pose proof (digit_value_nonneg c Hc). lia.
Qed.

Lemma py_int_nonneg (s : string) (z : Z) : py_int s = Ok z -> (0 <= z)%Z.
Proof.
  unfold py_int. destruct (String.eqb s ""); [discriminate|].
  cbn [negb andb]. destruct (all isdigit s) eqn:E; [|discriminate].
  destruct (String.length s <=? int_max_str_digits)%nat; [|discriminate].
  intros [= <-]. now apply int_digits_nonneg.
Qed.

(** X12: an integer result comes from the duration rule only, and is never
    negative. *)
Theorem clean_value_int_is_duration (raw : string) (z : Z) :
  clean_value raw = PInt z ->
  contains "mn" (lower (strip raw)) = true
  /\ contains "s" (lower (strip raw)) = true
  /\ (0 <= z)%Z.
Proof.
  unfold clean_value. destruct (mem _ _); [discriminate|].
  set (val := lower (strip raw)).
  destruct (contains "mn" val && contains "s" val) eqn:E.
  - apply andb_true_iff in E as [Hmn Hs].
    rewrite clean_value_try_duration by assumption.
    destruct (numeric_run_before "mn" val) as [g1|]; [|discriminate].
    destruct (py_int g1) as [mins|] eqn:E1; cbn [bind]; [|discriminate].
    destruct (numeric_run_before "s" val) as [g2|]; [|discriminate].
    destruct (py_int g2) as [secs|] eqn:E2; cbn [bind]; [|discriminate].
    intros [= <-]. apply py_int_nonneg in E1, E2. repeat split; auto. lia.
  - unfold clean_value_try. rewrite E. unfold py_float.
    destruct (contains "%" val).
    + destruct (float_accepts _); discriminate.
    + destruct (search re_number val); cbn [attribute_of bind];
        [|discriminate].
      destruct (float_accepts _); discriminate.
Qed.

Lemma clean_value_int_is_duration_witness :
  clean_value "3 mn 07 s" = PInt 187
  /\ contains "mn" (lower (strip "3 mn 07 s")) = true
  /\ contains "s" (lower (strip "3 mn 07 s")) = true
  /\ (0 <= 187)%Z.
Proof.
  assert (H : clean_value "3 mn 07 s" = PInt 187) by reflexivity.
  split; [exact H|].
  exact (clean_value_int_is_duration "3 mn 07 s" 187 H).
Defined.

(** ** The generic pattern and its numerals *)

Module LanguageFacts.

Lemma star_sound {R : Type} (p : ascii -> bool) (k : string -> option R)
  (s : string) (x : R) :
  star p k s = Some x ->
  exists w s', s = w ++ s' /\ all p w = true /\ k s' = Some x.
Proof.
  induction s as [|c s IH]; simpl.
  - intros H. exists "", "". auto.
  - destruct (p c) eqn:E.
    + destruct (star p k s) as [y|] eqn:Es.
      * intros [= <-]. destruct (IH eq_refl) as (w & s' & -> & Hw & Hk).
        exists (String c w), s'. simpl. rewrite E, Hw. auto.
      * intros H. exists "", (String c s). auto.
    + intros H. exists "", (String c s). auto.
Qed.

Lemma star_lazy_sound {R : Type} (p : ascii -> bool) (k : string -> option R)
  (s : string) (x : R) :
  star_lazy p k s = Some x ->
  exists w s', s = w ++ s' /\ all p w = true /\ k s' = Some x.
Proof.
  induction s as [|c s IH]; simpl.
  - destruct (k "") eqn:E; [|discriminate].
    intros [= <-]. exists "", "". auto.
  - destruct (k (String c s)) eqn:E.
    + intros [= <-]. exists "", (String c s). auto.
    + destruct (p c) eqn:Ep; [|discriminate].
      intros H. destruct (IH H) as (w & s' & -> & Hw & Hk).
      exists (String c w), s'. simpl. rewrite Ep, Hw. auto.
Qed.

(** What the matcher passes over is a text of the pattern. *)
Lemma run_sound {R : Type} (r : regex) :
  forall (s : string) (g : option string)
         (k : string -> option string -> option R) (x : R),
  run r s g k = Some x ->
  exists w s' g', s = w ++ s' /\ matches r w /\ k s' g' = Some x.
Proof.
  induction r as [l|p|p|p|p|r1 IH1 r2 IH2|r IH]; intros s g k x; cbn [run].
  - destruct (startswith l s) eqn:E; [|discriminate].
    intros H. exists l, (drop (String.length l) s), g.
    split; [now apply startswith_split|]. split; [constructor|assumption].
  - intros H. apply star_sound in H as (w & s' & -> & Hw & Hk).
    exists w, s', g. split; auto. split; [now constructor|assumption].
  - intros H. apply star_lazy_sound in H as (w & s' & -> & Hw & Hk).
    exists w, s', g. split; auto. split; [now constructor|assumption].
  - destruct s as [|c s]; [discriminate|].
    destruct (p c) eqn:E; [|discriminate].
    intros H. apply star_sound in H as (w & s' & -> & Hw & Hk).
    exists (String c w), s', g. split; auto.
    split; [now constructor|assumption].
  - destruct s as [|c s].
    + intros H. exists "", "", g. split; auto. split; [constructor|assumption].
    + destruct (p c) eqn:E.
      * destruct (k s g) as [y|] eqn:Ek.
        -- intros [= <-]. exists (String c ""), s, g. split; auto.
           split; [now constructor|assumption].
        -- intros H. exists "", (String c s), g. split; auto.
           split; [constructor|assumption].
      * intros H. exists "", (String c s), g. split; auto.
        split; [constructor|assumption].
  - intros H. apply IH1 in H as (w1 & s1 & g1 & -> & M1 & H).
    apply IH2 in H as (w2 & s2 & g2 & -> & M2 & H).
    exists (w1 ++ w2), s2, g2. split; [now rewrite app_assoc|].
    split; [now constructor|assumption].
  - intros H. apply IH in H as (w & s' & g' & -> & M & H).
    exists w, s'. eexists. split; auto. split; [now constructor|exact H].
Qed.

Lemma match_here_sound (r : regex) (s : string) (m : match_object) :
  match_here r s = Some m ->
  s = group0 m ++ after m /\ matches r (group0 m).
Proof.
  unfold match_here. intros H.
  apply run_sound in H as (w & s' & g' & -> & M & H).
  injection H as <-. cbn [group0 after]. now rewrite consumed_app.
Qed.

Lemma search_sound (r : regex) (s : string) (m : match_object) :
  search r s = Some m ->
  exists before, s = before ++ group0 m ++ after m /\ matches r (group0 m).
Proof.
  induction s as [|c s IH]; cbn [search].
  - destruct (match_here r "") as [m'|] eqn:E; [|discriminate].
    intros [= <-]. exists "". now apply match_here_sound.
  - destruct (match_here r (String c s)) as [m'|] eqn:E.
    + intros [= <-]. exists "". now apply match_here_sound.
    + intros H. destruct (IH H) as (b & -> & M).
      exists (String c b). auto.
Qed.

(** *** The matcher misses no text of the pattern *)

Lemma star_complete {R : Type} (p : ascii -> bool) (k : string -> option R)
  (w t : string) :
  all p w = true -> k t <> None -> star p k (w ++ t) <> None.
Proof.
  intros Hw Hk. induction w as [|c w IH]; cbn [append].
  - now apply star_fallback.
  - cbn [all] in Hw. apply andb_true_iff in Hw as [Hc Hw].
    cbn [star]. rewrite Hc. specialize (IH Hw).
    destruct (star p k (w ++ t)); [discriminate|]. now elim IH.
Qed.

Lemma star_lazy_fallback {R : Type} (p : ascii -> bool)
  (k : string -> option R) (s : string) :
  k s <> None -> star_lazy p k s <> None.
Proof.
  intros H. destruct s; cbn [star_lazy]; destruct (k _); congruence.
Qed.

Lemma star_lazy_complete {R : Type} (p : ascii -> bool)
  (k : string -> option R) (w t : string) :
  all p w = true -> k t <> None -> star_lazy p k (w ++ t) <> None.
Proof.
  intros Hw Hk. induction w as [|c w IH]; cbn [append].
  - now apply star_lazy_fallback.
  - cbn [all] in Hw. apply andb_true_iff in Hw as [Hc Hw].
    cbn [star_lazy]. rewrite Hc.
    destruct (k (String c (w ++ t))); [discriminate|]. now apply IH.
Qed.

(** When [w] is a text of [r] and the rest of the match succeeds after it,
    the matcher does not fail at the head of [w ++ t]. *)
Lemma run_complete {R : Type} (r : regex) (w : string) :
  matches r w ->
  forall (t : string) (g : option string)
         (k : string -> option string -> option R),
  (forall g', k t g' <> None) -> run r (w ++ t) g k <> None.
Proof.
  induction 1 as [l|p w Hw|p w Hw|p c w Hc Hw|p|p c Hc
                  |r1 r2 w1 w2 M1 IH1 M2 IH2|r w M IH];
    intros t g k Hk; cbn [run].
  - rewrite startswith_app, drop_app. apply Hk.
  - apply star_complete; auto.
  - apply star_lazy_complete; auto.
  - cbn [append]. rewrite Hc. apply star_complete; auto.
  - cbn [append]. destruct t as [|a t]; [apply Hk|].
    destruct (p a); [|apply Hk].
    destruct (k t g); [discriminate|apply Hk].
  - cbn [append]. rewrite Hc.
    destruct (k t g) eqn:E; [discriminate|]. now apply Hk in E.
  - rewrite app_assoc. apply IH1. intros g'. now apply IH2.
  - apply IH. intros g'. apply Hk.
Qed.

Lemma match_here_complete (r : regex) (w t : string) :
  matches r w -> match_here r (w ++ t) <> None.
Proof.
  intros M. unfold match_here. apply run_complete; [exact M|].
  intros g'. discriminate.
Qed.

(** *** [search] finds the first text *)

Lemma search_leftmost (r : regex) (s : string) (m : match_object) :
  search r s = Some m ->
  exists before,
    s = before ++ group0 m ++ after m
    /\ match_here r (group0 m ++ after m) = Some m
    /\ forall b1 b2, before = b1 ++ b2 -> b2 <> "" ->
         match_here r (b2 ++ group0 m ++ after m) = None.
Proof.
  induction s as [|c s IH]; cbn [search].
  - destruct (match_here r "") as [m'|] eqn:E; [|discriminate].
    intros [= <-]. exists "".
    destruct (match_here_sound _ _ _ E) as [Hs _].
    split; [exact Hs|]. split; [now rewrite <- Hs|].
    intros b1 b2 Hb Hne. destruct b1; [|discriminate Hb].
    cbn [append] in Hb. now subst b2.
  - destruct (match_here r (String c s)) as [m'|] eqn:E.
    + intros [= <-]. exists "".
      destruct (match_here_sound _ _ _ E) as [Hs _].
      split; [exact Hs|]. split; [now rewrite <- Hs|].
      intros b1 b2 Hb Hne. destruct b1; [|discriminate Hb].
      cbn [append] in Hb. now subst b2.
    + intros H. destruct (IH H) as (b & Hs & Hm & Hleft).
      exists (String c b). split; [cbn [append]; now rewrite <- Hs|].
      split; [exact Hm|].
      intros b1 b2 Hb Hne. destruct b1 as [|c1 b1]; cbn [append] in Hb.
      * subst b2. cbn [append]. now rewrite <- Hs.
      * injection Hb as _ Hb. now apply (Hleft b1 b2).
Qed.


(** *** Numerals *)

Lemma all_take_while (p : ascii -> bool) (s : string) :
  all p (take_while p s) = true.
Proof.
  induction s as [|c s IH]; simpl; auto.
  destruct (p c) eqn:E; simpl; auto. now rewrite E.
Qed.

Lemma span_digits_scan (s : string) :
  span_digits s
  = (String.length (take_while isdigit s), lstrip_by isdigit s).
Proof.
  induction s as [|c s IH]; simpl; auto.
  destruct (isdigit c); auto. now rewrite IH.
Qed.

Lemma lstrip_all (p : ascii -> bool) (s : string) :
  all p s = true -> lstrip_by p s = "".
Proof.
  induction s as [|c s IH]; simpl; auto.
  intros H; apply andb_true_iff in H as [-> H]. auto.
Qed.

Lemma take_while_all (p : ascii -> bool) (s : string) :
  all p s = true -> take_while p s = s.
Proof.
  induction s as [|c s IH]; simpl; auto.
  intros H; apply andb_true_iff in H as [-> H]. now rewrite IH.
Qed.

Lemma all_app (p : ascii -> bool) (a b : string) :
  all p (a ++ b) = all p a && all p b.
Proof. induction a; simpl; auto. now rewrite IHa, andb_assoc. Qed.

Lemma all_none (p q : ascii -> bool) (s : string) :
  (forall c, p c = true -> q c = false) ->
  all p s = true -> any q s = false.
Proof.
  intros Hpq. induction s as [|c s IH]; simpl; auto.
  intros H; apply andb_true_iff in H as [Hc Hs].
  now rewrite (Hpq _ Hc), IH.
Qed.

Lemma all_weaken (p q : ascii -> bool) (s : string) :
  (forall c, p c = true -> q c = true) ->
  all p s = true -> all q s = true.
Proof.
  intros Hpq. induction s as [|c s IH]; simpl; auto.
  intros H; apply andb_true_iff in H as [Hc Hs].
  now rewrite (Hpq _ Hc), IH.
Qed.

Lemma skip_sign_split (s : string) :
  exists sg, s = sg ++ skip_sign s
             /\ (sg = "" \/ exists c, sg = String c "" /\ is_sign c = true).
Proof.
  destruct s as [|c s]; [exists ""; auto|].
  unfold skip_sign.
  destruct (Ascii.eqb c "+" || Ascii.eqb c "-") eqn:E.
  - exists (String c ""). split; auto. right. exists c. split; auto.
    unfold is_sign. now rewrite orb_comm.
  - exists "". auto.
Qed.

(** The two shapes of a numeral. *)
Lemma is_numeral_cases (w : string) :
  is_numeral w = true ->
  exists sg,
    (sg = "" \/ exists c, sg = String c "" /\ is_sign c = true)
    /\ ((exists c d, w = sg ++ String c d /\ all isdigit (String c d) = true)
        \/ (exists d1 c d2, w = sg ++ d1 ++ "." ++ String c d2
                            /\ all isdigit d1 = true
                            /\ all isdigit (String c d2) = true)).
Proof.
  unfold is_numeral. intros H.
  destruct (skip_sign_split w) as (sg & Hw & Hsg).
  exists sg. split; [assumption|].
  set (s1 := skip_sign w) in *.
  pose proof (take_while_lstrip isdigit s1) as Hs1.
  pose proof (all_take_while isdigit s1) as Hd.
  destruct (lstrip_by isdigit s1) as [|c s3].
  - left. rewrite app_nil_r in Hs1. rewrite <- Hs1 in Hd.
    destruct s1 as [|c d]; [discriminate H|]. eauto.
  - right. apply andb_true_iff in H as [H H3].
    apply andb_true_iff in H as [Hc Hne].
    unfold is_point in Hc. apply Ascii.eqb_eq in Hc. subst c.
    destruct s3 as [|c d2]; [discriminate Hne|].
    exists (take_while isdigit s1), c, d2. repeat split; auto.
    now rewrite Hw, Hs1 at 1.
Qed.

Lemma sign_is_numeral_char (c : ascii) :
  is_sign c = true -> numeral_char c = true.
Proof. unfold numeral_char. intros ->. now rewrite orb_true_r. Qed.

Lemma digit_is_numeral_char (c : ascii) :
  isdigit c = true -> numeral_char c = true.
Proof. unfold numeral_char. now intros ->. Qed.

Lemma numeral_chars (w : string) :
  is_numeral w = true -> all numeral_char w = true.
Proof.
  intros H. apply is_numeral_cases in H as (sg & Hsg & Hw).
  assert (Hs : all numeral_char sg = true).
  { destruct Hsg as [->|(c & -> & Hc)]; simpl; auto.
    now rewrite sign_is_numeral_char. }
  pose proof (all_weaken isdigit numeral_char) as Hdig.
  destruct Hw as [(c & d & -> & Hd)|(d1 & c & d2 & -> & H1 & H2)].
  - rewrite all_app, Hs. apply Hdig; auto using digit_is_numeral_char.
  - change ("." ++ String c d2) with (String "." "" ++ String c d2).
    rewrite !all_app, Hs.
    rewrite (Hdig d1), (Hdig (String c d2));
      auto using digit_is_numeral_char.
Qed.

Lemma numeral_has_digit (w : string) :
  is_numeral w = true -> any isdigit w = true.
Proof.
  intros H. apply is_numeral_cases in H as (sg & _ & Hw).
  destruct Hw as [(c & d & -> & Hd)|(d1 & c & d2 & -> & H1 & H2)];
    rewrite !any_app; cbn [all] in *.
  - apply andb_true_iff in Hd as [Hc _]. cbn [any]. rewrite Hc.
    now rewrite orb_true_r.
  - apply andb_true_iff in H2 as [Hc _].
    change ("." ++ String c d2) with (String "." (String c d2)).
    cbn [any]. rewrite Hc. now rewrite !orb_true_r.
Qed.

Lemma numeral_char_not_blank (c : ascii) :
  numeral_char c = true -> float_blank c = false.
Proof. by_cases_on c. Qed.

Lemma numeral_char_not_space (c : ascii) :
  numeral_char c = true -> isspace c = false.
Proof. by_cases_on c. Qed.

Lemma numeral_char_not_underscore (c : ascii) :
  numeral_char c = true -> is_underscore c = false.
Proof. by_cases_on c. Qed.

Lemma numeral_char_lower (c : ascii) :
  numeral_char c = true -> lower_char c = c.
Proof. by_cases_on c. Qed.

Lemma numeral_char_not_m (c : ascii) :
  numeral_char c = true -> Ascii.eqb "m" c = false.
Proof. by_cases_on c. Qed.

Lemma numeral_char_not_percent (c : ascii) :
  numeral_char c = true -> Ascii.eqb "%" c = false.
Proof. by_cases_on c. Qed.

Lemma lstrip_none (p : ascii -> bool) (s : string) :
  any p s = false -> lstrip_by p s = s.
Proof. destruct s; simpl; auto. intros H. now apply orb_false_iff in H as [-> _]. Qed.

Lemma rstrip_none (p : ascii -> bool) (s : string) :
  any p s = false -> rstrip_by p s = s.
Proof.
  induction s as [|c s IH]; simpl; auto.
  intros H; apply orb_false_iff in H as [Hc Hs].
  rewrite (IH Hs), Hc. now destruct s.
Qed.

Lemma strip_none (p : ascii -> bool) (s : string) :
  any p s = false -> strip_by p s = s.
Proof.
  intros H. unfold strip_by. rewrite lstrip_none by assumption.
  now apply rstrip_none.
Qed.

(** [float] accepts every numeral. *)
Lemma float_accepts_numeral (w : string) :
  is_numeral w = true -> float_accepts w = true.
Proof.
  intros H. pose proof (numeral_chars w H) as Hc.
  unfold float_accepts.
  rewrite strip_none
    by (now apply (all_none numeral_char), Hc; apply numeral_char_not_blank).
  destruct (underscores_absent "000" w eq_refl) as [-> ->].
  { now apply (all_none numeral_char), Hc;
      apply numeral_char_not_underscore. }
  cbn [andb]. apply orb_true_iff. right.
  unfold float_number. unfold is_numeral in H.
  rewrite span_digits_scan.
  destruct (lstrip_by isdigit (skip_sign w)) as [|c s3] eqn:E.
  - pose proof (take_while_lstrip isdigit (skip_sign w)) as Hs.
    rewrite E, app_nil_r in Hs. rewrite <- Hs.
    destruct (skip_sign w); [discriminate H|]. reflexivity.
  - apply andb_true_iff in H as [H H3].
    apply andb_true_iff in H as [Hp Hne].
    unfold is_point in Hp. rewrite Hp. rewrite span_digits_scan.
    rewrite (take_while_all isdigit s3), (lstrip_all isdigit s3)
      by assumption.
    destruct s3; [discriminate Hne|].
    cbn [String.length exponent_ok]. rewrite andb_true_r.
    apply Nat.ltb_lt. lia.
Qed.

Lemma matches_number (w : string) :
  matches re_number w -> is_numeral w = true.
Proof.
  unfold re_number. intros H.
  inversion H as [| | | | | |? ? sg w1 Hsg H1|]; subst; clear H.
  inversion H1 as [| | | | | |? ? d1 w2 Hd1 H2|]; subst; clear H1.
  inversion H2 as [| | | | | |? ? pt d2 Hpt Hd2|]; subst; clear H2.
  inversion Hd1 as [|? ? Hall1| | | | | |]; subst; clear Hd1.
  inversion Hd2 as [| | |? c d2' Hc Hall2| | | |]; subst; clear Hd2.
  assert (Hbody : is_numeral (d1 ++ pt ++ String c d2') = true
                  /\ stops is_sign (d1 ++ pt ++ String c d2')).
  { inversion Hpt as [| | | |?|? cp Hcp| |]; subst; clear Hpt;
      cbn [append].
    - assert (Hall : all isdigit (d1 ++ String c d2') = true)
        by (rewrite all_app; cbn [all]; now rewrite Hall1, Hc, Hall2).
      assert (Hhead : stops is_sign (d1 ++ String c d2')).
      { destruct d1 as [|a d1]; cbn [append stops].
        - revert Hc. clear. by_cases_on c.
        - cbn [all] in Hall1. apply andb_true_iff in Hall1 as [Ha _].
          revert Ha. clear. by_cases_on a. }
      split; [|assumption].
      unfold is_numeral.
      replace (skip_sign (d1 ++ String c d2')) with (d1 ++ String c d2').
      + rewrite lstrip_all by assumption.
        now destruct d1.
      + destruct (d1 ++ String c d2') as [|a r]; [reflexivity|].
        cbn [stops] in Hhead. unfold skip_sign, is_sign in *.
        rewrite orb_comm in Hhead. now rewrite Hhead.
    - unfold is_point in Hcp. apply Ascii.eqb_eq in Hcp. subst cp.
      assert (Hhead : stops is_sign (d1 ++ String "." (String c d2'))).
      { destruct d1 as [|a d1]; cbn [append stops]; [reflexivity|].
        cbn [all] in Hall1. apply andb_true_iff in Hall1 as [Ha _].
        revert Ha. clear. by_cases_on a. }
      split; [|assumption].
      unfold is_numeral.
      replace (skip_sign (d1 ++ String "." (String c d2')))
        with (d1 ++ String "." (String c d2')).
      + rewrite lstrip_all_app by (auto; reflexivity).
        cbn [all]. now rewrite Hc, Hall2.
      + destruct (d1 ++ String "." (String c d2')) as [|a r];
          [reflexivity|].
        cbn [stops] in Hhead. unfold skip_sign, is_sign in *.
        rewrite orb_comm in Hhead. now rewrite Hhead. }
  destruct Hbody as [Hnum Hhead].
  inversion Hsg as [| | | |?|? cs Hcs| |]; subst; clear Hsg; cbn [append].
  - exact Hnum.
  - unfold is_numeral in *. cbn [skip_sign].
    unfold is_sign in Hcs. rewrite orb_comm in Hcs. rewrite Hcs.
    replace (skip_sign (d1 ++ pt ++ String c d2'))
      with (d1 ++ pt ++ String c d2') in Hnum; [exact Hnum|].
    destruct (d1 ++ pt ++ String c d2') as [|a r]; [reflexivity|].
    cbn [stops] in Hhead. unfold skip_sign, is_sign in *.
    rewrite orb_comm in Hhead. now rewrite Hhead.
Qed.

End LanguageFacts.
Import LanguageFacts.

Lemma digit_not_sentinel (val : string) :
  any isdigit val = true -> mem val ["unknown"; "-"; ""] = false.
Proof.
  intros H. destruct (mem val _) eqn:E; [|reflexivity].
  apply mem_In in E. simpl in E.
  destruct E as [E|[E|[E|[]]]]; subst val; discriminate H.
Qed.

Lemma any_digit_normal_form (raw : string) :
  any isdigit (lower (strip raw)) = any isdigit raw.
Proof.
  rewrite any_lower_digit. unfold strip.
  apply any_strip_keep, digit_not_space.
Qed.

(** No digit stands before the place where the generic pattern first
    matches. *)
Lemma no_digit_before_number (before x : string) :
  (forall b1 b2, before = b1 ++ b2 -> b2 <> "" ->
     match_here re_number (b2 ++ x) = None) ->
  any isdigit before = false.
Proof.
  induction before as [|c b IH]; intros H; [reflexivity|].
  cbn [any]. apply orb_false_iff. split.
  - destruct (isdigit c) eqn:Hc; [|reflexivity].
    exfalso. apply (number_at_digit c (b ++ x) Hc).
    apply (H "" (String c b)); [reflexivity|discriminate].
  - apply IH. intros b1 b2 Hb Hne.
    apply (H (String c b1) b2); [cbn [append]; now rewrite Hb|exact Hne].
Qed.

Lemma star_takes_all {R : Type} (p : ascii -> bool) (k : string -> option R)
  (s : string) :
  (forall t, k t <> None) -> star p k s = k (lstrip_by p s).
Proof.
  intros Hk. induction s as [|c s IH]; cbn [star lstrip_by]; auto.
  destruct (p c); auto. rewrite IH.
  destruct (k (lstrip_by p s)) eqn:E; [reflexivity|]. now apply Hk in E.
Qed.

Lemma run_seq {R : Type} (r1 r2 : regex) (s : string) (g : option string)
  (k : string -> option string -> option R) :
  run (Seq r1 r2) s g k = run r1 s g (fun s' g' => run r2 s' g' k).
Proof. reflexivity. Qed.

(** The match of the generic pattern is not cut short: no digit follows
    it. *)
Lemma number_ends_its_digits (s : string) (m : match_object) :
  match_here re_number s = Some m -> stops isdigit (after m).
Proof.
  unfold match_here, re_number. intros H.
  rewrite run_seq in H.
  apply run_sound in H as (w1 & s1 & g1 & _ & _ & H). cbv beta in H.
  rewrite run_seq in H.
  apply run_sound in H as (w2 & s2 & g2 & _ & _ & H). cbv beta in H.
  rewrite run_seq in H.
  apply run_sound in H as (w3 & s3 & g3 & _ & _ & H). cbv beta in H.
  destruct s3 as [|c s3]; cbn [run] in H; [discriminate H|].
  destruct (isdigit c); [|discriminate H].
  rewrite star_takes_all in H by (intros t; discriminate).
  injection H as <-. cbn [after]. apply lstrip_by_stops.
Qed.

(** X13: a value with a decimal digit that has no percent sign and not both
    duration markers is always normalized to a float, never to its text: the
    float of the match [m] of the generic search, which is the first numeral
    of the value.  It is a numeral, it stands where the pattern first has a
    text (no text of the pattern, of whatever length, starts before it, and
    no digit stands before it), and no digit follows it. *)
Theorem generic_rule_gives_float (raw : string) :
  any isdigit raw = true ->
  contains "%" (lower (strip raw)) = false ->
  contains "mn" (lower (strip raw)) && contains "s" (lower (strip raw))
  = false ->
  exists m before,
    search re_number (lower (strip raw)) = Some m
    /\ lower (strip raw) = before ++ group0 m ++ after m
    /\ first_text re_number before (group0 m) (after m)
    /\ any isdigit before = false
    /\ is_numeral (group0 m) = true
    /\ stops isdigit (after m)
    /\ clean_value raw = PFloat (group0 m).
Proof.
  intros Hdigit Hpct Hdur.
  rewrite <- any_digit_normal_form in Hdigit.
  set (val := lower (strip raw)) in *.
  destruct (search re_number val) as [m|] eqn:Es.
  2:{ apply number_iff_digit in Es. congruence. }
  destruct (search_leftmost _ _ _ Es) as (before & Hval & Hhere & Hleft).
  assert (Hfirst : first_text re_number before (group0 m) (after m)).
  { split; [now apply match_here_sound in Hhere|].
    intros b1 b2 u t Hb Hne Hu M.
    apply (match_here_complete re_number u t M).
    rewrite <- Hu. now apply (Hleft b1 b2). }
  exists m, before. split; [reflexivity|]. split; [exact Hval|].
  split; [exact Hfirst|].
  split; [exact (no_digit_before_number _ _ Hleft)|].
  split; [apply matches_number, Hfirst|].
  split; [exact (number_ends_its_digits _ _ Hhere)|].
  unfold clean_value. fold val.
  rewrite digit_not_sentinel by assumption.
  unfold clean_value_try. rewrite Hdur, Hpct, Es.
  cbn [attribute_of bind]. unfold py_float.
  rewrite float_accepts_numeral; [reflexivity|].
  apply matches_number, Hfirst.
Qed.

Lemma generic_rule_gives_float_witness :
  any isdigit "Load: 49.9 Hz (max 60)" = true
  /\ contains "%" (lower (strip "Load: 49.9 Hz (max 60)")) = false
  /\ contains "mn" (lower (strip "Load: 49.9 Hz (max 60)"))
     && contains "s" (lower (strip "Load: 49.9 Hz (max 60)")) = false
  /\ exists m before,
       search re_number (lower (strip "Load: 49.9 Hz (max 60)")) = Some m
       /\ lower (strip "Load: 49.9 Hz (max 60)")
          = before ++ group0 m ++ after m
       /\ first_text re_number before (group0 m) (after m)
       /\ any isdigit before = false
       /\ is_numeral (group0 m) = true
       /\ stops isdigit (after m)
       /\ clean_value "Load: 49.9 Hz (max 60)" = PFloat (group0 m).
Proof.
  repeat (split; [reflexivity|]).
  exact (generic_rule_gives_float "Load: 49.9 Hz (max 60)"
           eq_refl eq_refl eq_refl).
Defined.

(** *** A numeral and its unit *)

Lemma star_first {R : Type} (p : ascii -> bool) (k : string -> option R)
  (d r : string) (x : R) :
  all p d = true -> stops p r -> k r = Some x -> star p k (d ++ r) = Some x.
Proof.
  intros Hd Hr Hk. induction d as [|c d IH]; cbn [append].
  - now rewrite star_stops.
  - cbn [all] in Hd. apply andb_true_iff in Hd as [Hc Hd].
    cbn [star]. now rewrite Hc, IH.
Qed.

(** A greedy run that has to give its last character back. *)
Lemma star_backtrack_one {R : Type} (p : ascii -> bool)
  (k : string -> option R) (d : string) (c : ascii) (r : string) (x : R) :
  all p d = true -> p c = true -> stops p r ->
  k r = None -> k (String c r) = Some x ->
  star p k (d ++ String c r) = Some x.
Proof.
  intros Hd Hc Hr Hnone Hsome. induction d as [|a d IH]; cbn [append].
  - cbn [star]. now rewrite Hc, star_stops, Hnone.
  - cbn [all] in Hd. apply andb_true_iff in Hd as [Ha Hd].
    cbn [star]. now rewrite Ha, IH.
Qed.

Lemma split_last (s : string) (c : ascii) :
  exists d a, String c s = d ++ String a "".
Proof.
  revert c; induction s as [|b s IH]; intros c.
  - exists "", c. reflexivity.
  - destruct (IH b) as (d & a & ->). exists (String c d), a. reflexivity.
Qed.

Lemma digit_not_point (c : ascii) : isdigit c = true -> is_point c = false.
Proof. by_cases_on c. Qed.

Lemma digit_not_sign (c : ascii) : isdigit c = true -> is_sign c = false.
Proof. by_cases_on c. Qed.

Section NumberTail.
Context {R : Type}.
Variable k : string -> option string -> option R.
Variable g : option string.
Variable u : string.
Variable x : R.
Hypothesis u_not_digit : stops isdigit u.
Hypothesis k_accepts : k u g = Some x.

Lemma plus_digits (c : ascii) (d : string) :
  all isdigit (String c d) = true ->
  run (Plus isdigit) (String c d ++ u) g k = Some x.
Proof.
  cbn [all append run]. intros H. apply andb_true_iff in H as [-> H].
  now apply star_first.
Qed.

(** Digits, a point, digits: the greedy path succeeds at once. *)
Lemma number_tail_fraction (d1 : string) (c : ascii) (d2 : string) :
  all isdigit d1 = true -> all isdigit (String c d2) = true ->
  run number_tail (d1 ++ "." ++ String c d2 ++ u) g k = Some x.
Proof.
  intros H1 H2. unfold number_tail.
  change (star isdigit
            (fun s' => run (Seq (Opt is_point) (Plus isdigit)) s' g k)
            (d1 ++ String "." (String c d2 ++ u)) = Some x).
  apply star_first; [assumption|reflexivity|].
  change (run (Opt is_point) (String "." (String c d2 ++ u)) g
            (fun s' g' => run (Plus isdigit) s' g' k) = Some x).
  cbn [run]. change (is_point ".") with true. cbv iota.
  fold (run (Plus isdigit) (String c d2 ++ u) g k).
  now rewrite plus_digits.
Qed.

Hypothesis u_not_point : stops is_point u.

(** Digits alone: the run gives back its last digit to the final [+]. *)
Lemma number_tail_integer (c : ascii) (d : string) :
  all isdigit (String c d) = true ->
  run number_tail (String c d ++ u) g k = Some x.
Proof.
  intros H. destruct (split_last d c) as (d' & a & E).
  rewrite E in H |- *. rewrite all_app in H.
  apply andb_true_iff in H as [Hd' Ha]. cbn [all] in Ha.
  rewrite andb_true_r in Ha.
  rewrite app_assoc. cbn [append]. unfold number_tail.
  change (star isdigit
            (fun s' => run (Seq (Opt is_point) (Plus isdigit)) s' g k)
            (d' ++ String a u) = Some x).
  apply star_backtrack_one; auto.
  - change (run (Opt is_point) u g
              (fun s' g' => run (Plus isdigit) s' g' k) = None).
    destruct u as [|b r]; [reflexivity|].
    cbn [stops] in u_not_digit, u_not_point. cbn [run].
    rewrite u_not_point. now rewrite u_not_digit.
  - change (run (Opt is_point) (String a u) g
              (fun s' g' => run (Plus isdigit) s' g' k) = Some x).
    cbn [run]. rewrite (digit_not_point a Ha), Ha.
    now rewrite star_stops.
Qed.

End NumberTail.

(** At the head of a text, a numeral followed by something that starts with
    neither a digit nor a point is what the generic pattern matches. *)
Lemma match_here_numeral (numeral u : string) :
  is_numeral numeral = true ->
  stops isdigit u -> stops is_point u ->
  match_here re_number (numeral ++ u) = Some (MatchObject numeral None u).
Proof.
  intros Hnum Hd Hp.
  apply is_numeral_cases in Hnum as (sg & Hsg & Hw).
  unfold match_here.
  set (K := fun s' g' => Some (MatchObject (consumed (numeral ++ u) s') g' s')).
  assert (HK : K u None = Some (MatchObject numeral None u)).
  { unfold K. now rewrite consumed_app. }
  change (run (Opt is_sign) (numeral ++ u) None
            (fun s' g' => run number_tail s' g' K)
          = Some (MatchObject numeral None u)).
  assert (Hbody : forall body,
    (exists c d, body = String c d /\ all isdigit (String c d) = true)
    \/ (exists d1 c d2, body = d1 ++ "." ++ String c d2
                        /\ all isdigit d1 = true
                        /\ all isdigit (String c d2) = true) ->
    run number_tail (body ++ u) None K = Some (MatchObject numeral None u)
    /\ stops is_sign (body ++ u)).
  { intros body [(c & d & -> & H)|(d1 & c & d2 & -> & H1 & H2)].
    - split; [now apply number_tail_integer|].
      cbn [all] in H. apply andb_true_iff in H as [Hc _].
      cbn [append stops]. now apply digit_not_sign.
    - rewrite !app_assoc. split; [now apply number_tail_fraction|].
      destruct d1 as [|a d1]; cbn [append stops]; [reflexivity|].
      cbn [all] in H1. apply andb_true_iff in H1 as [Ha _].
      now apply digit_not_sign. }
  destruct Hsg as [->|(cs & -> & Hcs)].
  - assert (Hw' := Hw). cbn [append] in Hw'.
    destruct (Hbody numeral) as [Hrun Hhead].
    { destruct Hw' as [(c & d & Hn & H)|(d1 & c & d2 & Hn & H1 & H2)].
      - left. exists c, d. split; assumption.
      - right. exists d1, c, d2. repeat split; assumption. }
    destruct (numeral ++ u) as [|a r] eqn:E.
    + cbn [run]. exact Hrun.
    + cbn [run stops] in *. rewrite Hhead. exact Hrun.
  - assert (exists body, numeral = String cs body
              /\ run number_tail (body ++ u) None K
                 = Some (MatchObject numeral None u)) as (body & -> & Hrun).
    { destruct Hw as [(c & d & Hn & H)|(d1 & c & d2 & Hn & H1 & H2)].
      - exists (String c d). split; [exact Hn|].
        apply (Hbody (String c d)). left. exists c, d. split; auto.
      - exists (d1 ++ "." ++ String c d2). split; [exact Hn|].
        apply (Hbody (d1 ++ "." ++ String c d2)). right.
        exists d1, c, d2. repeat split; auto. }
    cbn [append run]. rewrite Hcs.
    fold (run number_tail (body ++ u) None K). now rewrite Hrun.
Qed.

(** X14: a value that starts with a numeral followed by a unit (a text that
    begins with neither a digit nor a point), without a percent sign and
    without both duration markers, is normalized to that numeral. *)
Theorem numeral_with_unit (raw numeral unit : string) :
  lower (strip raw) = numeral ++ unit ->
  is_numeral numeral = true ->
  stops isdigit unit -> stops is_point unit ->
  contains "%" (lower (strip raw)) = false ->
  contains "mn" (lower (strip raw)) && contains "s" (lower (strip raw))
  = false ->
  clean_value raw = PFloat numeral.
Proof.
  intros Hval Hnum Hd Hp Hpct Hdur.
  unfold clean_value. rewrite digit_not_sentinel.
  2:{ rewrite Hval, any_app, numeral_has_digit by assumption. reflexivity. }
  unfold clean_value_try. rewrite Hdur, Hpct, Hval.
  rewrite (search_here _ _ _ (match_here_numeral numeral unit Hnum Hd Hp)).
  cbn [attribute_of bind group0]. unfold py_float.
  now rewrite float_accepts_numeral.
Qed.

Lemma numeral_with_unit_witness :
  lower (strip " 235 V") = "235" ++ " v"
  /\ is_numeral "235" = true
  /\ stops isdigit " v" /\ stops is_point " v"
  /\ contains "%" (lower (strip " 235 V")) = false
  /\ contains "mn" (lower (strip " 235 V"))
     && contains "s" (lower (strip " 235 V")) = false
  /\ clean_value " 235 V" = PFloat "235".
Proof.
  repeat (split; [reflexivity|]).
  exact (numeral_with_unit " 235 V" "235" " v"
           eq_refl eq_refl eq_refl eq_refl eq_refl eq_refl).
Defined.

(** *** Percentages *)

Lemma replace_percent_app (a b : string) :
  replace "%" "" (a ++ b) = replace "%" "" a ++ replace "%" "" b.
Proof.
  unfold replace. induction a as [|c a IH]; [reflexivity|].
  cbn [append replace_scan startswith String.length Nat.sub andb].
  destruct (Ascii.eqb "%" c); cbn [andb append]; now rewrite IH.
Qed.

Lemma replace_percent_absent (s : string) :
  any (Ascii.eqb "%") s = false -> replace "%" "" s = s.
Proof.
  unfold replace. induction s as [|c s IH]; [reflexivity|].
  cbn [any replace_scan startswith String.length Nat.sub andb].
  intros H; apply orb_false_iff in H as [-> H]. cbn [andb].
  now rewrite IH.
Qed.

Lemma rstrip_app_all (p : ascii -> bool) (a w : string) :
  all p w = true -> rstrip_by p (a ++ w) = rstrip_by p a.
Proof.
  intros Hw. induction a as [|c a IH]; cbn [append].
  - now rewrite rstrip_all.
  - cbn [rstrip_by]. now rewrite IH.
Qed.

Lemma no_m_no_minutes (s : string) :
  any (Ascii.eqb "m") s = false -> contains "mn" s = false.
Proof.
  intros H. destruct (contains "mn" s) eqn:E; [|reflexivity].
  apply contains_head in E. congruence.
Qed.

Lemma space_not_percent (c : ascii) :
  isspace c = true -> Ascii.eqb "%" c = false.
Proof. by_cases_on c. Qed.

Lemma space_not_m (c : ascii) : isspace c = true -> Ascii.eqb "m" c = false.
Proof. by_cases_on c. Qed.

Lemma lower_fixed (p : ascii -> bool) (s : string) :
  (forall c, p c = true -> lower_char c = c) ->
  all p s = true -> lower s = s.
Proof.
  intros Hp. induction s as [|c s IH]; simpl; auto.
  intros H; apply andb_true_iff in H as [Hc Hs].
  now rewrite (Hp _ Hc), IH.
Qed.

(** X15: a numeral followed by a percent sign, with any white space before,
    between and after, is normalized to that numeral as a float. *)
Theorem percentage_is_its_numeral (numeral w0 w1 w2 : string) :
  is_numeral numeral = true ->
  all isspace w0 = true -> all isspace w1 = true -> all isspace w2 = true ->
  clean_value (w0 ++ numeral ++ w1 ++ "%" ++ w2) = PFloat numeral.
Proof.
  intros Hnum H0 H1 H2.
  pose proof (numeral_chars numeral Hnum) as Hc.
  assert (Hnsp : any isspace numeral = false)
    by (now apply (all_none numeral_char), Hc; apply numeral_char_not_space).
  assert (Hval : lower (strip (w0 ++ numeral ++ w1 ++ "%" ++ w2))
                 = numeral ++ w1 ++ "%").
  { unfold strip, strip_by. rewrite lstrip_app by assumption.
    rewrite lstrip_stops.
    2:{ destruct numeral as [|c n]; [discriminate Hnum|].
        cbn [append stops]. cbn [any] in Hnsp.
        now apply orb_false_iff in Hnsp. }
    cbn [append]. rewrite <- app_assoc.
    rewrite rstrip_end by (auto; reflexivity).
    rewrite app_assoc, !lower_app.
    rewrite (lower_fixed numeral_char numeral numeral_char_lower Hc).
    now rewrite (lower_all_space w1) by assumption. }
  unfold clean_value. rewrite Hval.
  rewrite digit_not_sentinel
    by (rewrite any_app, numeral_has_digit by assumption; reflexivity).
  assert (Hmn : contains "mn" (numeral ++ w1 ++ "%") = false).
  { apply no_m_no_minutes. rewrite !any_app.
    rewrite (all_none numeral_char _ numeral numeral_char_not_m Hc).
    now rewrite (all_none isspace _ w1 space_not_m H1). }
  unfold clean_value_try. rewrite Hmn. cbn [andb].
  rewrite <- app_assoc, contains_end.
  rewrite replace_percent_app, replace_percent_app.
  rewrite (replace_percent_absent numeral)
    by (now apply (all_none numeral_char), Hc;
        apply numeral_char_not_percent).
  rewrite (replace_percent_absent w1)
    by (now apply (all_none isspace), H1; apply space_not_percent).
  change (replace "%" "" "%") with "". rewrite app_nil_r.
  unfold strip, strip_by. rewrite lstrip_stops.
  2:{ destruct numeral as [|c n]; [discriminate Hnum|].
      cbn [append stops]. cbn [any] in Hnsp.
      now apply orb_false_iff in Hnsp. }
  rewrite rstrip_app_all, rstrip_none by assumption.
  unfold py_float. now rewrite float_accepts_numeral.
Qed.

Lemma percentage_is_its_numeral_witness :
  is_numeral "99.5" = true
  /\ all isspace " " = true /\ all isspace "  " = true
  /\ all isspace "" = true
  /\ clean_value (" " ++ "99.5" ++ "  " ++ "%" ++ "") = PFloat "99.5".
Proof.
  repeat (split; [reflexivity|]).
  exact (percentage_is_its_numeral "99.5" " " "  " ""
           eq_refl eq_refl eq_refl eq_refl).
Defined.

(** ** The duration rule in general *)

Lemma numeric_run_is_digits (marker s run : string) :
  numeric_run_before marker s = Some run ->
  all isdigit run = true /\ run <> "".
Proof.
  induction s as [|c s IH]; cbn [numeric_run_before].
  - unfold digits_before_here. cbn [take_while]. discriminate.
  - destruct (digits_before_here marker (String c s)) as [[r rest]|] eqn:E;
      [|exact IH].
    intros [= <-]. unfold digits_before_here in E.
    pose proof (all_take_while isdigit (String c s)) as Hall.
    destruct (take_while isdigit (String c s)) as [|a t]; [discriminate E|].
    destruct (startswith marker _); [|discriminate E].
    injection E as <- _. split; [exact Hall|discriminate].
Qed.

Lemma numeric_run_contains (marker s run : string) :
  numeric_run_before marker s = Some run -> contains marker s = true.
Proof.
  induction s as [|c s IH]; cbn [numeric_run_before].
  - unfold digits_before_here. cbn [take_while]. discriminate.
  - destruct (digits_before_here marker (String c s)) as [[r rest]|] eqn:Ed.
    + intros _. unfold digits_before_here in Ed.
      destruct (take_while isdigit (String c s)); [discriminate Ed|].
      destruct (startswith marker _) eqn:Est; [|discriminate Ed].
      pose proof (take_while_lstrip isdigit (String c s)) as H1.
      pose proof (take_while_lstrip isspace
                    (lstrip_by isdigit (String c s))) as H2.
      rewrite H1, H2. apply contains_app_r, contains_app_r.
      now apply contains_here.
    + intros H. cbn [contains]. rewrite (IH H). apply orb_true_r.
Qed.

(** X16: when a run of digits stands before each of the two markers, the
    result is 60 times the first run before [mn] plus the first run before
    [s], whatever else the value holds (hours, words); unless one of the two
    runs has more digits than [int] converts, in which case the result is
    the trimmed, lower-case text. *)
Theorem duration_of_first_runs (raw minutes seconds : string) :
  numeric_run_before "mn" (lower (strip raw)) = Some minutes ->
  numeric_run_before "s" (lower (strip raw)) = Some seconds ->
  clean_value raw
  = if (String.length minutes <=? int_max_str_digits)%nat
       && (String.length seconds <=? int_max_str_digits)%nat
    then PInt (int_digits 0 minutes * 60 + int_digits 0 seconds)
    else PStr (lower (strip raw)).
Proof.
  intros Hmin Hsec.
  pose proof (numeric_run_contains _ _ _ Hmin) as Hmn.
  pose proof (numeric_run_contains _ _ _ Hsec) as Hs.
  unfold clean_value. rewrite sentinel_has_no_minutes by assumption.
  rewrite clean_value_try_duration by assumption.
  rewrite Hmin, Hsec.
  apply numeric_run_is_digits in Hmin as [Hm1 Hm2].
  apply numeric_run_is_digits in Hsec as [Hs1 Hs2].
  destruct (Nat.leb_spec (String.length minutes) int_max_str_digits)
    as [Lm|Lm].
  - rewrite (py_int_digits minutes) by assumption. cbn [bind andb].
    destruct (Nat.leb_spec (String.length seconds) int_max_str_digits)
      as [Ls|Ls].
    + now rewrite (py_int_digits seconds) by assumption.
    + now rewrite (py_int_too_long seconds) by assumption.
  - now rewrite (py_int_too_long minutes) by assumption.
Qed.

Lemma duration_of_first_runs_witness :
  numeric_run_before "mn" (lower (strip "1 h 03 mn 20 s left")) = Some "03"
  /\ numeric_run_before "s" (lower (strip "1 h 03 mn 20 s left")) = Some "20"
  /\ clean_value "1 h 03 mn 20 s left"
     = PInt (int_digits 0 "03" * 60 + int_digits 0 "20").
Proof.
  repeat (split; [reflexivity|]).
  exact (duration_of_first_runs "1 h 03 mn 20 s left" "03" "20"
           eq_refl eq_refl).
Defined.

(** A run of 4301 digits before [mn]: the seconds are found, the minutes are
    more than [int] converts, and the value comes back as text. *)
Lemma long_minutes_run_is_text :
  numeric_run_before "s" ("0 s " ++ long_run ++ " mn") = Some "0"
  /\ numeric_run_before "mn" ("0 s " ++ long_run ++ " mn") = Some long_run
  /\ clean_value ("0 s " ++ long_run ++ " mn")
     = PStr ("0 s " ++ long_run ++ " mn").
Proof.
  split; [vm_compute; reflexivity|].
  split; [vm_compute; reflexivity|].
  vm_compute; reflexivity.
Qed.
